(** * eddy/annulus.py: the [ensemble] class, shallowly embedded.

    Floating point values are modelled by [F64.t]: a finite value as an exact
    rational, the two infinities and NaN, with the IEEE-754 rules for
    infinities and NaN written out.  Rounding and the sign of zero are not
    modelled.  numpy arrays are lists; Python exceptions are the [Err] branch
    of the result type [Res].  Library code that is not part of the
    repository (numpy's argsort, libm's cos and sqrt, scipy's curve_fit and
    minimize, bettermoments' quadratic, celerite's GP) is either written out
    from its implementation or passed in as a parameter. *)

From Stdlib Require Import String Ascii QArith Qabs Qround ZArith List Bool Lia Lqa.
From Stdlib Require Import Sorting.Sorted Sorting.Permutation.
Import ListNotations.


(** ** IEEE-754 doubles (without rounding). *)
Module F64.

Inductive t := Fin (q : Q) | PInf | NInf | NaN.

Definition qlt (a b : Q) : bool := negb (Qle_bool b a).

Definition isnan (x : t) : bool := match x with NaN => true | _ => false end.
Definition isfinite (x : t) : bool := match x with Fin _ => true | _ => false end.

Definition neg (x : t) : t :=
  match x with Fin q => Fin (- q) | PInf => NInf | NInf => PInf | NaN => NaN end.

Definition add (x y : t) : t :=
  match x, y with
  | NaN, _ | _, NaN => NaN
  | PInf, NInf | NInf, PInf => NaN
  | PInf, _ | _, PInf => PInf
  | NInf, _ | _, NInf => NInf
  | Fin a, Fin b => Fin (a + b)
  end.

Definition sub (x y : t) : t := add x (neg y).

(** The infinity of the sign of [a] (for [a <> 0]); [pos] flips it. *)
Definition inf_of (pos : bool) (a : Q) : t :=
  if Qeq_bool a 0 then NaN else if xorb pos (qlt 0 a) then NInf else PInf.

Definition mul (x y : t) : t :=
  match x, y with
  | NaN, _ | _, NaN => NaN
  | Fin a, Fin b => Fin (a * b)
  | Fin a, PInf | PInf, Fin a => inf_of true a
  | Fin a, NInf | NInf, Fin a => inf_of false a
  | PInf, PInf | NInf, NInf => PInf
  | PInf, NInf | NInf, PInf => NInf
  end.

Definition div (x y : t) : t :=
  match x, y with
  | NaN, _ | _, NaN => NaN
  | Fin a, Fin b => if Qeq_bool b 0 then inf_of true a else Fin (a / b)
  | Fin _, (PInf | NInf) => Fin 0
  | PInf, Fin b => if qlt b 0 then NInf else PInf
  | NInf, Fin b => if qlt b 0 then PInf else NInf
  | (PInf | NInf), (PInf | NInf) => NaN
  end.

Definition abs (x : t) : t :=
  match x with Fin q => Fin (Qabs q) | PInf | NInf => PInf | NaN => NaN end.

(** Python/numpy [<], [<=] and [==]: every comparison with NaN is false. *)
Definition ltb (x y : t) : bool :=
  match x, y with
  | Fin a, Fin b => qlt a b
  | NInf, (Fin _ | PInf) => true
  | Fin _, PInf => true
  | _, _ => false
  end.

Definition leb (x y : t) : bool :=
  match x, y with
  | Fin a, Fin b => Qle_bool a b
  | NInf, (Fin _ | PInf | NInf) => true
  | (Fin _ | PInf), PInf => true
  | _, _ => false
  end.

Definition eqb (x y : t) : bool :=
  match x, y with
  | Fin a, Fin b => Qeq_bool a b
  | PInf, PInf | NInf, NInf => true
  | _, _ => false
  end.

(** numpy's sort order for floats ([npy::double_tag::less]): NaN sorts last. *)
Definition np_less (a b : t) : bool := ltb a b || (isnan b && negb (isnan a)).

(** Python's [x % m] for a float [x] and a positive float [m]. *)
Definition pymod (x : t) (m : Q) : t :=
  match x with Fin q => Fin (q - m * inject_Z (Qfloor (q / m))) | _ => NaN end.

End F64.

Abbreviation F64 := F64.t.
Import F64 (Fin, PInf, NInf, NaN).

(** ** Python exceptions and the result monad. *)
Inductive PyErr :=
  ValueError (msg : string) | AttributeError (msg : string) | IndexError | OverflowError.

Inductive Res (A : Type) := Ok (a : A) | Err (e : PyErr).
Arguments Ok {A} a.
Arguments Err {A} e.

Definition bind {A B} (m : Res A) (f : A -> Res B) : Res B :=
  match m with Ok a => f a | Err e => Err e end.
Notation "'let*' x ':=' m 'in' k" := (bind m (fun x => k))
  (at level 200, x name, m at level 100, k at level 200).

(** ** numpy helpers. *)

(** [a[idxs]] for an integer index array. *)
Definition take_idx {A} (d : A) (l : list A) (idxs : list nat) : Res (list A) :=
  if forallb (fun i => i <? length l) idxs then Ok (map (fun i => nth i l d) idxs)
  else Err IndexError.

(** [a[mask]] for a boolean mask. *)
Definition mask_idx {A} (l : list A) (m : list bool) : Res (list A) :=
  if length l =? length m then Ok (map fst (filter snd (combine l m)))
  else Err IndexError.

(** [np.sum] of a 1-D array. *)
Definition np_sum (r : list F64) : F64 := fold_left F64.add r (Fin 0).

(** [np.argmax]: the first maximum; a NaN is the maximum (first NaN wins). *)
Fixpoint argmax_from (l : list F64) (i best : nat) (bv : F64) : nat :=
  match l with
  | [] => best
  | v :: l' =>
      if F64.isnan bv then best
      else if F64.isnan v || F64.ltb bv v then argmax_from l' (S i) i v
      else argmax_from l' (S i) best bv
  end.
Definition argmax (l : list F64) : nat :=
  match l with [] => 0 | v :: l' => argmax_from l' 1 0 v end.

(** [np.max] of a non-empty array: NaN propagates. *)
Definition np_max (l : list F64) : F64 := nth (argmax l) l NaN.

(** [np.argmin]: the first minimum; a NaN is the minimum (first NaN wins). *)
Fixpoint argmin_from (l : list F64) (i best : nat) (bv : F64) : nat :=
  match l with
  | [] => best
  | v :: l' =>
      if F64.isnan bv then best
      else if F64.isnan v || F64.ltb v bv then argmin_from l' (S i) i v
      else argmin_from l' (S i) best bv
  end.
Definition argmin (l : list F64) : nat :=
  match l with [] => 0 | v :: l' => argmin_from l' 1 0 v end.

(** [np.min] of a non-empty array: NaN propagates. *)
Definition np_min (l : list F64) : F64 := nth (argmin l) l NaN.

(** Insertion sort in numpy's order, used for [np.percentile] and [np.median],
    whose values do not depend on the sorting algorithm. *)
Fixpoint insert_np (x : F64) (l : list F64) : list F64 :=
  match l with
  | [] => [x]
  | y :: l' => if F64.np_less y x then y :: insert_np x l' else x :: l
  end.
Definition sort_np (l : list F64) : list F64 := fold_right insert_np [] l.

(** [np.percentile(a, p)] with linear interpolation; NaN if [a] holds a NaN. *)
Definition percentile (a : list F64) (p : Q) : F64 :=
  if existsb F64.isnan a then NaN else
  let s := sort_np a in
  let pos := p / 100 * inject_Z (Z.of_nat (length a) - 1) in
  let lo := Z.to_nat (Qfloor pos) in
  let frac := pos - inject_Z (Qfloor pos) in
  let alo := nth lo s NaN in
  let ahi := nth (S lo) s alo in
  F64.add alo (F64.mul (F64.sub ahi alo) (Fin frac)).

(** [np.median]. *)
Definition median (a : list F64) : F64 :=
  if existsb F64.isnan a then NaN else
  let s := sort_np a in
  let n := length a in
  if Nat.even n then
    F64.div (F64.add (nth (n / 2 - 1) s NaN) (nth (n / 2) s NaN)) (Fin 2)
  else nth (n / 2) s NaN.

(** [np.trapz(y, x)]. *)
Fixpoint trapz (y x : list F64) : F64 :=
  match y, x with
  | y0 :: (y1 :: _) as y', x0 :: (x1 :: _) as x' =>
      F64.add (F64.div (F64.mul (F64.sub x1 x0) (F64.add y1 y0)) (Fin 2)) (trapz y' x')
  | _, _ => Fin 0
  end.

(** [str.lower] on ASCII strings. *)
Definition lower_ascii (c : ascii) : ascii :=
  let n := nat_of_ascii c in
  if (65 <=? n) && (n <=? 90) then ascii_of_nat (n + 32) else c.
Fixpoint lower (s : string) : string :=
  match s with EmptyString => EmptyString | String c s' => String (lower_ascii c) (lower s') end.

Definition last_or (l : list F64) : F64 := last l NaN.

(** [math.pi] as the double it denotes. *)
Definition pi_f64 : F64 := Fin (884279719003555 # 281474976710656).

(** [np.degrees]. *)
Definition degrees (x : F64) : F64 := F64.mul x (F64.div (Fin 180) pi_f64).

(** ** numpy's default [np.argsort] (kind='quicksort'), portable path.

    Written from numpy's [aquicksort_] and [aheapsort_] templates
    (npysort/quicksort.cpp, heapsort.cpp) for [npy::double_tag]: an introsort
    whose partitions run while a segment has more than [SMALL_QUICKSORT] = 16
    elements, an insertion sort on the small segments, and a heapsort once
    the depth budget [2 * msb(num)] is spent.  Builds with AVX-512 dispatch
    float64 argsort to x86-simd-sort instead; that path is not modelled.
    Indices are [Z] as the C pointers; [tosort] is the index array. *)
Module NpSort.
Local Open Scope Z_scope.

Definition get (a : list nat) (i : Z) : nat := nth (Z.to_nat i) a 0%nat.

Fixpoint set_nth (a : list nat) (i : nat) (x : nat) : list nat :=
  match a, i with
  | [], _ => []
  | _ :: a', O => x :: a'
  | y :: a', S i' => y :: set_nth a' i' x
  end.
Definition set (a : list nat) (i : Z) (x : nat) : list nat := set_nth a (Z.to_nat i) x.

Definition swap (a : list nat) (i j : Z) : list nat :=
  let x := get a i in let y := get a j in set (set a i y) j x.

Section Sort.
Variable v : list F64.

Definition key (a : list nat) (i : Z) : F64 := nth (get a i) v NaN.
Definition less := F64.np_less.

(** [do ++pi; while (less(v[*pi], vp))]; the pivot at [pr - 1] stops it. *)
Fixpoint scan_up (fuel : nat) (a : list nat) (vp : F64) (i : Z) : Z :=
  match fuel with
  | O => i
  | S f => if less (key a (i + 1)) vp then scan_up f a vp (i + 1) else i + 1
  end.

(** [do --pj; while (less(vp, v[*pj]))]; the median at [pl] stops it. *)
Fixpoint scan_down (fuel : nat) (a : list nat) (vp : F64) (j : Z) : Z :=
  match fuel with
  | O => j
  | S f => if less vp (key a (j - 1)) then scan_down f a vp (j - 1) else j - 1
  end.

Fixpoint part_loop (fuel : nat) (a : list nat) (vp : F64) (pi pj : Z) : list nat * Z :=
  match fuel with
  | O => (a, pi)
  | S f =>
      let pi' := scan_up (length a) a vp pi in
      let pj' := scan_down (length a) a vp pj in
      if (pj' <=? pi')%Z then (a, pi')
      else part_loop f (swap a pi' pj') vp pi' pj'
  end.

(** One median-of-three partition of [pl..pr]; returns the array and the
    final pivot position [pi]. *)
Definition partition (a : list nat) (pl pr : Z) : list nat * Z :=
  let pm := (pl + Z.shiftr (pr - pl) 1)%Z in
  let a := if less (key a pm) (key a pl) then swap a pm pl else a in
  let a := if less (key a pr) (key a pm) then swap a pr pm else a in
  let a := if less (key a pm) (key a pl) then swap a pm pl else a in
  let vp := key a pm in
  let a := swap a pm (pr - 1) in
  let '(a, pi) := part_loop (length a) a vp pl (pr - 1) in
  (swap a pi (pr - 1), pi).

(** Insertion sort of [pl..pr]. *)
Fixpoint ins_shift (fuel : nat) (a : list nat) (pl : Z) (vp : F64) (pj : Z) : list nat * Z :=
  match fuel with
  | O => (a, pj)
  | S f =>
      if (pl <? pj)%Z && less vp (key a (pj - 1))
      then ins_shift f (set a pj (get a (pj - 1))) pl vp (pj - 1)
      else (a, pj)
  end.

Fixpoint ins_loop (fuel : nat) (a : list nat) (pl pr pi : Z) : list nat :=
  match fuel with
  | O => a
  | S f =>
      if (pi <=? pr)%Z then
        let vi := get a pi in
        let '(a, pj) := ins_shift (length a) a pl (nth vi v NaN) pi in
        ins_loop f (set a pj vi) pl pr (pi + 1)
      else a
  end.

Definition insertion (a : list nat) (pl pr : Z) : list nat :=
  ins_loop (length a) a pl pr (pl + 1).

(** Heapsort of [pl..pr]: heap slot [k] (1-based) is [tosort[pl - 1 + k]]. *)
Fixpoint sift (fuel : nat) (a : list nat) (base : Z) (tmp : nat) (i j n : Z) : list nat :=
  match fuel with
  | O => set a (base + i) tmp
  | S f =>
      if (j <=? n)%Z then
        let j := if (j <? n)%Z && less (key a (base + j)) (key a (base + j + 1))
                 then (j + 1)%Z else j in
        if less (nth tmp v NaN) (key a (base + j))
        then sift f (set a (base + i) (get a (base + j))) base tmp j (j + j) n
        else set a (base + i) tmp
      else set a (base + i) tmp
  end.

Fixpoint heapify (fuel : nat) (a : list nat) (base l n : Z) : list nat :=
  match fuel with
  | O => a
  | S f =>
      if (0 <? l)%Z then
        heapify f (sift (length a) a base (get a (base + l)) l (l + l) n) base (l - 1) n
      else a
  end.

Fixpoint pop_max (fuel : nat) (a : list nat) (base n : Z) : list nat :=
  match fuel with
  | O => a
  | S f =>
      if (1 <? n)%Z then
        let tmp := get a (base + n) in
        let a := set a (base + n) (get a (base + 1)) in
        pop_max f (sift (length a) a base tmp 1 2 (n - 1)) base (n - 1)
      else a
  end.

Definition heapsort (a : list nat) (pl pr : Z) : list nat :=
  let n := (pr - pl + 1)%Z in
  let base := (pl - 1)%Z in
  pop_max (length a) (heapify (length a) a base (Z.shiftr n 1) n) base n.

(** The outer [for (;;)] loop of [aquicksort_]; the stack holds
    [(pl, pr, cdepth)] triples.  [top] marks the head of the outer loop,
    where the depth budget is checked. *)
Fixpoint qs (fuel : nat) (a : list nat) (pl pr cdepth : Z)
    (stack : list (Z * Z * Z)) (top : bool) : option (list nat) :=
  match fuel with
  | O => None
  | S f =>
      if top && (cdepth <? 0)%Z then
        let a := heapsort a pl pr in
        match stack with
        | [] => Some a
        | (pl', pr', d) :: st => qs f a pl' pr' d st true
        end
      else if (15 <? pr - pl)%Z then
        let '(a, pi) := partition a pl pr in
        if (pi - pl <? pr - pi)%Z
        then qs f a pl (pi - 1) (cdepth - 1) ((pi + 1, pr, cdepth - 1)%Z :: stack) false
        else qs f a (pi + 1) pr (cdepth - 1) ((pl, pi - 1, cdepth - 1)%Z :: stack) false
      else
        let a := insertion a pl pr in
        match stack with
        | [] => Some a
        | (pl', pr', d) :: st => qs f a pl' pr' d st true
        end
  end.

End Sort.

(** [np.argsort(v)]; the fuel [4 n + 4] exceeds the number of outer
    iterations (at most one partition or one pop per element). *)
Definition argsort (v : list F64) : list nat :=
  let n := length v in
  let nz := Z.of_nat n in
  match qs v (4 * n + 4)%nat (seq 0 n) 0 (nz - 1) (2 * Z.log2 nz) [] true with
  | Some a => a
  | None => seq 0 n
  end.

End NpSort.

(** ** Collaborators outside the repository.

    [argsort] is numpy's [np.argsort] (for instance [NpSort.argsort]); [cos]
    and [sqrt] are numpy's ufuncs; [curve_fit] is scipy's [curve_fit] of
    [ensemble._gaussian] from a start vector, [None] when it raises;
    [quadratic] is [bettermoments.methods.quadratic(spectrum, x0, dx)[0]];
    [gp_compute x y theta] tells whether celerite's [gp.compute(x)] succeeds
    for the kernel built from [theta] with mean [nanmean(y)], and
    [gp_log_likelihood x y theta] is [gp.log_likelihood(y, quiet=True)];
    [minimize f x0 bounds] is scipy's [minimize] (L-BFGS-B), giving
    [(res.x, res.success)] or the exception raised by [f]. *)
Record Externals := {
  argsort : list F64 -> list nat;
  cos : F64 -> F64;
  sqrt : F64 -> F64;
  curve_fit : list F64 -> list F64 -> F64 * F64 * F64 -> option (F64 * F64 * F64);
  quadratic : list F64 -> F64 -> F64 -> F64;
  gp_compute : list F64 -> list F64 -> list F64 -> bool;
  gp_log_likelihood : list F64 -> list F64 -> list F64 -> F64;
  minimize : (list F64 -> Res F64) -> list F64 -> list (option F64 * option F64)
             -> Res (list F64 * bool)
}.

(** The attributes of an [ensemble] instance. *)
Record ensemble := mkEnsemble {
  theta : list F64;
  spectra : list (list F64);
  theta_deg : list F64;
  spectra_flat : list F64;
  velax : list F64;
  channel : F64;
  velax_range : F64 * F64;
  velax_mask : F64 * F64
}.

Fixpoint mapM {A B} (f : A -> Res B) (l : list A) : Res (list B) :=
  match l with
  | [] => Ok []
  | x :: l' => let* y := f x in let* ys := mapM f l' in Ok (y :: ys)
  end.

Section Annulus.
Variable X : Externals.

(** [np.sum(spectra, axis=-1) > 0.0]. *)
Definition nonempty_mask (spectra : list (list F64)) : list bool :=
  map (fun r => F64.ltb (Fin 0) (np_sum r)) spectra.

(** [ensemble.__init__(spectra, theta, velax, suppress_warnings, remove_empty,
    sort_spectra)].  The warning filter has no observable effect here. *)
Definition ensemble_init (spectra0 : list (list F64)) (theta0 velax0 : list F64)
    (remove_empty sort_spectra : bool) : Res ensemble :=
  let* ts :=
    (if sort_spectra then
       let idxs := argsort X theta0 in
       let* sp := take_idx [] spectra0 idxs in
       let* th := take_idx NaN theta0 idxs in
       Ok (th, sp)
     else Ok (theta0, spectra0)) in
  let* ts :=
    (if remove_empty then
       let idxs := nonempty_mask spectra0 in
       let* th := mask_idx (fst ts) idxs in
       let* sp := mask_idx (snd ts) idxs in
       Ok (th, sp)
     else Ok ts) in
  let theta_deg := map (fun t => F64.pymod (degrees t) 360) theta0 in
  let spectra_flat := concat spectra0 in
  if length (fst ts) <? 1 then Err (ValueError "No finite spectra. Check for NaNs.")
  else
    match velax0 with
    | v0 :: v1 :: _ =>
        let ch := F64.sub v1 v0 in
        Ok {| theta := fst ts; spectra := snd ts; theta_deg := theta_deg;
              spectra_flat := spectra_flat; velax := velax0; channel := ch;
              velax_range := (F64.sub v0 (F64.mul (Fin (1#2)) ch),
                              F64.add (last_or velax0) (F64.mul (Fin (1#2)) ch));
              velax_mask := (percentile velax0 30, percentile velax0 70) |}
    | _ => Err IndexError
    end.

(** [_order_spectra(vpnts, spnts=None)]. *)
Definition order_spectra (e : ensemble) (vpnts : list F64) (spnts : option (list F64))
    : Res (list F64 * list F64) :=
  let spnts := match spnts with Some s => s | None => spectra_flat e end in
  if negb (length spnts =? length vpnts) then
    Err (ValueError "Wrong size in 'vpnts' and 'spnts'.")
  else
    let idxs := argsort X vpnts in
    let* vs := take_idx NaN vpnts idxs in
    let* ss := take_idx NaN spnts idxs in
    Ok (vs, ss).

(** [int(x)] for a Python float: truncation toward zero. *)
Definition py_int (x : F64) : Res Z :=
  match x with
  | Fin q => Ok (Z.quot (Qnum q) (Zpos (Qden q)))
  | NaN => Err (ValueError "cannot convert float NaN to integer")
  | _ => Err OverflowError
  end.

Definition of_nat (n : nat) : F64 := Fin (inject_Z (Z.of_nat n)).

(** [np.linspace(lo, hi, n + 1)]: [arange(0, n + 1) * step + lo], last point
    set to [hi]. *)
Definition linspace (lo hi : F64) (n : nat) : list F64 :=
  let step := F64.div (F64.sub hi lo) (of_nat n) in
  map (fun i => if i =? n then hi else F64.add (F64.mul (of_nat i) step) lo) (seq 0 (S n)).

(** [np.searchsorted(edges, x, side='right')] on a sorted array: the number
    of leading edges that [x] is not below, in numpy's order. *)
Fixpoint searchsorted_right (es : list F64) (x : F64) : nat :=
  match es with
  | [] => 0
  | e :: es' => if F64.np_less x e then 0 else S (searchsorted_right es' x)
  end.

(** [np.rint]: to the nearest integer, ties to even. *)
Definition rint (q : Q) : Z :=
  let f := Qfloor q in
  let r := q - inject_Z f in
  if Qle_bool r (1#2) then
    (if Qeq_bool r (1#2) then (if Z.even f then f else f + 1) else f)
  else f + 1.

(** [10 ** d] for an integer [d] of either sign. *)
Definition pow10 (d : Z) : Q :=
  if (0 <=? d)%Z then inject_Z (10 ^ d) else / inject_Z (10 ^ (- d)).

(** [np.around(x, d)]: [rint(x * 10**d) / 10**d] (for [d < 0] numpy computes
    [rint(x / 10**-d) * 10**-d], the same value); infinities and NaN are
    unchanged. *)
Definition np_around (d : Z) (x : F64) : F64 :=
  match x with
  | Fin q => Fin (inject_Z (rint (q * pow10 d)) / pow10 d)
  | _ => x
  end.

(** [floor(log10 m)] for an integer [m >= 1]. *)
Fixpoint log10_floor_aux (fuel : nat) (m : Z) : Z :=
  match fuel with
  | O => 0
  | S f => if (m <? 10)%Z then 0 else 1 + log10_floor_aux f (m / 10)
  end.
Definition log10_floor (m : Z) : Z := log10_floor_aux (S (Z.to_nat (Z.log2 m))) m.

(** [int(-np.log10(d))] for a finite [d > 0], truncated toward zero: for
    [d <= 1] it is [floor(log10(1/d))], for [d > 1] it is
    [-floor(log10(d))]. *)
Definition neg_log10_int (d : Q) : Z :=
  if (Zpos (Qden d) <? Qnum d)%Z then - log10_floor (Qnum d / Zpos (Qden d))
  else log10_floor (Zpos (Qden d) / Qnum d).

(** The rounding precision of [_bin_numbers]:
    [decimal = int(-np.log10(dedges_min)) + 6], after the check
    [dedges_min == 0].  [np.log10] of a negative number, of [-inf] or of NaN
    is NaN, and [int] of NaN raises; [np.log10(inf)] is [inf], and [int] of
    [-inf] raises OverflowError. *)
Definition edge_decimal (dmin : F64) : Res Z :=
  match dmin with
  | Fin q =>
      if Qeq_bool q 0 then Err (ValueError "The smallest edge difference is numerically 0.")
      else if Qle_bool q 0 then Err (ValueError "cannot convert float NaN to integer")
      else Ok (neg_log10_int q + 6)%Z
  | PInf => Err OverflowError
  | _ => Err (ValueError "cannot convert float NaN to integer")
  end.

(** [np.min] with numpy's error on an empty array. *)
Definition np_amin (l : list F64) : Res F64 :=
  match l with
  | [] => Err (ValueError "zero-size array to reduction operation minimum which has no identity")
  | _ => Ok (np_min l)
  end.

(** [np.diff]. *)
Fixpoint np_diff (l : list F64) : list F64 :=
  match l with
  | a :: (b :: _) as l' => F64.sub b a :: np_diff l'
  | _ => []
  end.

(** The decimal digits of an integer, as [str] prints it. *)
Fixpoint digits_aux (fuel : nat) (m : Z) (acc : string) : string :=
  match fuel with
  | O => acc
  | S f =>
      let acc := String (ascii_of_nat (48 + Z.to_nat (m mod 10))%nat) acc in
      if (m <? 10)%Z then acc else digits_aux f (m / 10) acc
  end.
Definition z_to_string (z : Z) : string :=
  let s := digits_aux (S (Z.to_nat (Z.log2 (Z.abs z)))) (Z.abs z) EmptyString in
  if (z <? 0)%Z then String "-" s else s.

(** [np.linspace(lo, hi, num)], with its check of [num]: no point for
    [num = 0], the single point [0 * (hi - lo) + lo] for [num = 1], and
    [linspace lo hi (num - 1)] otherwise. *)
Definition np_linspace (lo hi : F64) (num : Z) : Res (list F64) :=
  if (num <? 0)%Z then
    Err (ValueError ("Number of samples, " ++ z_to_string num ++ ", must be non-negative."))
  else
    match Z.to_nat num with
    | O => Ok []
    | S O => Ok [F64.add (F64.mul (Fin 0) (F64.sub hi lo)) lo]
    | S n => Ok (linspace lo hi n)
    end.

(** scipy's bin number of a sample ([_bin_numbers]): [np.digitize], which is
    [searchsorted] on the increasing edges, shifted one bin left for the
    samples [x >= edges[-1]] that [np.around(_, decimal)] makes equal to the
    last edge; [0] and [n + 1] are the outlier bins.  Whenever the binning
    succeeds the edges are finite and strictly increasing (a non-finite or
    NaN edge makes [dedges_min] NaN), so numpy's monotonicity check of the
    edges passes. *)
Definition bin_number (decimal : Z) (edges : list F64) (x : F64) : nat :=
  let b := searchsorted_right edges x in
  let last := last_or edges in
  if F64.leb last x && F64.eqb (np_around decimal x) (np_around decimal last) then b - 1 else b.

(** The 'mean' statistic: [bincount] sum over count, NaN for an empty bin. *)
Definition mean_or_nan (l : list F64) : F64 :=
  match l with
  | [] => NaN
  | _ => F64.div (fold_left F64.add l (Fin 0)) (of_nat (length l))
  end.

(** The error of [binned_statistic_dd] for non-finite samples with an integer
    [bins]; its message begins with the repr of the sample array, which is
    not modelled. *)
Definition nonfinite_sample_error : PyErr := ValueError " contains non-finite values.".

(** [scipy.stats.binned_statistic(x, values, statistic='mean', bins=n,
    range=(lo, hi))[:2]]: bin means and edges, through [binned_statistic_dd],
    [_bin_edges] and [_bin_numbers], with their checks in order: finite
    samples (for an integer [bins]), as many values as samples, [lo <= hi],
    [np.linspace(lo, hi, n + 1)], and [np.diff(edges).min()].  An empty
    range is widened by 0.5 on each side. *)
Definition binned_statistic_mean (x values : list F64) (n : Z) (lo hi : F64)
    : Res (list F64 * list F64) :=
  if negb (forallb F64.isfinite x) then Err nonfinite_sample_error
  else if negb (length x =? length values) then
    Err (AttributeError "The number of `values` elements must match the length of each `sample` dimension.")
  else if F64.ltb hi lo then Err (ValueError "In range, start must be <= stop")
  else
    let '(lo, hi) := if F64.eqb lo hi
                     then (F64.sub lo (Fin (1#2)), F64.add hi (Fin (1#2))) else (lo, hi) in
    let* edges := np_linspace lo hi (n + 1)%Z in
    let* dmin := np_amin (np_diff edges) in
    let* decimal := edge_decimal dmin in
    let bns := map (bin_number decimal edges) x in
    let ys := map (fun k => mean_or_nan (map snd (filter (fun p => fst p =? k)
                                                   (combine bns values))))
                  (seq 1 (Z.to_nat n)) in
    Ok (ys, edges).

(** [np.average([e[1:], e[:-1]], axis=0)]. *)
Definition midpoints (edges : list F64) : list F64 :=
  map (fun p => F64.div (F64.add (fst p) (snd p)) (Fin 2)) (combine (tl edges) (removelast edges)).

(** [_resample_spectra(vpnts, spnts, resample)]; a Python bool is [Fin 0] or
    [Fin 1], and [not resample] holds for a zero. *)
Definition resample_spectra (e : ensemble) (vpnts spnts : list F64) (resample : F64)
    : Res (list F64 * list F64) :=
  if F64.eqb resample (Fin 0) then Ok (vpnts, spnts)
  else
    let* bins := py_int (F64.mul (of_nat (length (velax e) - 1)) resample) in
    let* r := binned_statistic_mean vpnts spnts bins (fst (velax_range e)) (snd (velax_range e)) in
    Ok (midpoints (snd r), fst r).

(** [deprojected_spectrum(vrot, resample)]. *)
Definition shifted_points (e : ensemble) (vrot : F64) : list F64 :=
  concat (map (fun t => map (fun c => F64.sub c (F64.mul vrot (cos X t))) (velax e)) (theta e)).

Definition deprojected_spectrum (e : ensemble) (vrot resample : F64)
    : Res (list F64 * list F64) :=
  let* o := order_spectra e (shifted_points e vrot) None in
  resample_spectra e (fst o) (snd o) resample.

(** [_get_p0_gaussian(x, y)], including the errors of [np.max] and
    [argmax] on empty arrays. *)
Definition get_p0_gaussian (x y : list F64) : Res (F64 * F64 * F64) :=
  if negb (length x =? length y) then Err (ValueError "Mismatch in array shapes.")
  else match x with
  | [] => Err (ValueError "zero-size array to reduction operation maximum")
  | _ =>
    let Tb := np_max x in
    let x0 := nth (argmax y) x NaN in
    let dV := F64.div (F64.div (trapz y x) Tb) (sqrt X (F64.mul (Fin 2) pi_f64)) in
    Ok (x0, dV, Tb)
  end.

(** [_fit_gaussian(x, y)]: any exception gives three NaNs. *)
Definition fit_gaussian (x y : list F64) : F64 * F64 * F64 :=
  match get_p0_gaussian x y with
  | Err _ => (NaN, NaN, NaN)
  | Ok p0 => match curve_fit X x y p0 with Some popt => popt | None => (NaN, NaN, NaN) end
  end.

(** [_get_gaussian_width(x, y, fill_value=1e50)]. *)
Definition get_gaussian_width (x y : list F64) : F64 :=
  let '(_, dV, _) := fit_gaussian x y in
  if F64.isfinite dV then F64.abs dV else Fin (inject_Z (10 ^ 50)).

(** [_get_gaussian_center(x, y)]. *)
Definition get_gaussian_center (x y : list F64) : Res F64 :=
  let '(x0, _, _) := fit_gaussian x y in
  if F64.isfinite x0 then Ok (F64.abs x0)
  else match y with
       | [] => Err (ValueError "attempt to get argmax of an empty sequence")
       | _ => let* l := take_idx NaN x [argmax y] in Ok (hd NaN l)
       end.

(** [peak_velocities(method)]. *)
Definition peak_velocities (e : ensemble) (method : string) : Res (list F64) :=
  let m := lower method in
  if String.eqb m "max" then
    take_idx NaN (velax e) (map argmax (spectra e))
  else if String.eqb m "quadratic" then
    Ok (map (fun s => quadratic X s (hd NaN (velax e)) (channel e)) (spectra e))
  else if String.eqb m "gaussian" then
    mapM (get_gaussian_center (velax e)) (spectra e)
  else Err (ValueError "method is not 'max', 'gaussian' or 'quadratic'.").

(** [deprojected_spectrum_maximum(resample, method)]. *)
Definition deprojected_spectrum_maximum (e : ensemble) (resample : F64) (method : string)
    : Res (list F64 * list F64) :=
  let* vmax := peak_velocities e method in
  let med := median vmax in
  let vpnts := concat (map (fun dv => map (fun c => F64.sub c dv) (velax e))
                           (map (fun m => F64.sub m med) vmax)) in
  let* o := order_spectra e vpnts None in
  resample_spectra e (fst o) (snd o) resample.

(** ** Gaussian process model. *)

(** [_get_masked_spectra(theta, resample)]. *)
Definition masked_spectra (e : ensemble) (th : list F64) (resample : F64)
    : Res (list F64 * list F64) :=
  match th with
  | [] => Err IndexError
  | vrot :: _ =>
      let* xy := deprojected_spectrum e vrot resample in
      let keep := map (fun x => F64.leb (fst (velax_mask e)) x && F64.leb x (snd (velax_mask e)))
                      (fst xy) in
      let* xs := mask_idx (fst xy) keep in
      let* ys := mask_idx (snd xy) keep in
      Ok (xs, ys)
  end.

(** [_lnprior(theta, vref)]. *)
Definition lnprior (th : list F64) (vref : F64) : Res F64 :=
  match th with
  | [vrot; noise; lnsigma; lnrho] =>
      Ok (if F64.ltb (Fin (1#5)) (F64.div (F64.abs (F64.sub vrot vref)) vref) then NInf
          else if F64.leb vrot (Fin 0) then NInf
          else if F64.leb noise (Fin 0) then NInf
          else if negb (F64.ltb (Fin (-15)) lnsigma && F64.ltb lnsigma (Fin 10)) then NInf
          else if negb (F64.leb (Fin 0) lnrho && F64.leb lnrho (Fin 10)) then NInf
          else Fin 0)
  | _ => Err (ValueError "wrong number of values to unpack")
  end.

(** [_lnlikelihood(theta, resample)]: [_build_kernel] returns [None] when
    [gp.compute] raises. *)
Definition lnlikelihood (e : ensemble) (th : list F64) (resample : F64) : Res F64 :=
  let* xy := masked_spectra e th resample in
  match th with
  | [_; _; _; _] =>
      if negb (gp_compute X (fst xy) (snd xy) th) then Ok NInf
      else
        let ll := gp_log_likelihood X (fst xy) (snd xy) th in
        Ok (if F64.isfinite ll then ll else NInf)
  | _ => Err (ValueError "wrong number of values to unpack")
  end.

(** [_lnprobability(theta, vref, resample)], instrumented with the number
    of evaluations of [_lnlikelihood] it performs.  [~np.isfinite(p)] is
    the logical negation of a numpy bool. *)
Definition lnprobability (e : ensemble) (th : list F64) (vref resample : F64) : Res F64 * nat :=
  match lnprior th vref with
  | Err err => (Err err, 0%nat)
  | Ok p => if negb (F64.isfinite p) then (Ok NInf, 0%nat) else (lnlikelihood e th resample, 1%nat)
  end.

(** [1e15], the penalty for a non-finite log-likelihood. *)
Definition penalty : F64 := Fin (inject_Z (10 ^ 15)).

(** [_negative_lnlikelihood(theta, resample)]. *)
Definition negative_lnlikelihood (e : ensemble) (th : list F64) (resample : F64) : Res F64 :=
  let* l := lnlikelihood e th resample in
  let nll := F64.neg l in
  Ok (if F64.isfinite nll then nll else penalty).

(** [_negative_lnlikelihood_hyper(hyperparams, vrot, resample)]. *)
Definition negative_lnlikelihood_hyper (e : ensemble) (hyper : list F64) (vrot resample : F64)
    : Res F64 := negative_lnlikelihood e (vrot :: hyper) resample.

(** [_negative_lnlikelihood_vrot(vrot, hyperparams, resample)]; [vrot] is
    the one-element array the minimizer passes. *)
Definition negative_lnlikelihood_vrot (e : ensemble) (vrot : list F64) (hyper : list F64)
    (resample : F64) : Res F64 := negative_lnlikelihood e (hd NaN vrot :: hyper) resample.

(** ** [_optimize_p0]: numpy arrays are shared objects.

    The arrays live in a heap (a list indexed by location); Python names hold
    locations.  [p0_temp = p0] copies a location, so the slice assignment
    [p0_temp[1:] = res.x] writes into the array [p0] names. *)
Definition heap := list (list F64).
Definition St (A : Type) := heap -> Res (A * heap).

Definition ret {A} (a : A) : St A := fun h => Ok (a, h).
Definition bindS {A B} (m : St A) (f : A -> St B) : St B :=
  fun h => match m h with Ok (a, h') => f a h' | Err err => Err err end.
Notation "x <-- m ;; k" := (bindS m (fun x => k))
  (at level 61, m at next level, right associativity).
Definition lift {A} (r : Res A) : St A :=
  fun h => match r with Ok a => Ok (a, h) | Err err => Err err end.
Definition load (l : nat) : St (list F64) :=
  fun h => if l <? length h then Ok (nth l h [], h) else Err IndexError.
Definition store (l : nat) (v : list F64) : St unit :=
  fun h => Ok (tt, firstn l h ++ v :: skipn (S l) h).
Definition alloc (v : list F64) : St nat := fun h => Ok (length h, h ++ [v]).

Definition opt_bounds := list (option F64 * option F64).

(** [bounds] at the top of an iteration. *)
Definition iteration_bounds (vrot : F64) : opt_bounds :=
  [(Some (F64.mul (Fin (8#10)) vrot), Some (F64.mul (Fin (12#10)) vrot));
   (Some (Fin 0), None); (Some (Fin (-15)), Some (Fin 10)); (Some (Fin 0), Some (Fin 10))].

(** The acceptance test shared by the three steps. *)
Definition accept (e : ensemble) (resample : F64) (p0 : nat) (nlnL : F64) (p0_temp : nat)
    : St (nat * F64) :=
  vt <-- load p0_temp ;;
  nlnL_temp <-- lift (negative_lnlikelihood e vt resample) ;;
  if F64.ltb nlnL_temp nlnL then ret (p0_temp, nlnL_temp) else ret (p0, nlnL).

(** First step: the hyper parameters, [vrot] held. *)
Definition hyper_step (e : ensemble) (resample : F64) (bounds : opt_bounds)
    (p0 : nat) (nlnL : F64) : St (nat * F64) :=
  v <-- load p0 ;;
  res <-- lift (minimize X (fun hp => negative_lnlikelihood_hyper e hp (hd NaN v) resample)
                         (tl v) (tl bounds)) ;;
  if snd res then
    let p0_temp := p0 in
    w <-- load p0_temp ;;
    _ <-- store p0_temp (hd NaN w :: fst res) ;;
    accept e resample p0 nlnL p0_temp
  else ret (p0, nlnL).

(** Second step: [vrot], the hyper parameters held. *)
Definition vrot_step (e : ensemble) (resample : F64) (bounds : opt_bounds)
    (p0 : nat) (nlnL : F64) : St (nat * F64) :=
  v <-- load p0 ;;
  res <-- lift (minimize X (fun vr => negative_lnlikelihood_vrot e vr (tl v) resample)
                         [hd NaN v] (firstn 1 bounds)) ;;
  if snd res then
    let p0_temp := p0 in
    w <-- load p0_temp ;;
    _ <-- store p0_temp (hd NaN (fst res) :: tl w) ;;
    accept e resample p0 nlnL p0_temp
  else ret (p0, nlnL).

(** Third step: all four parameters; [p0_temp = res.x] is a new array. *)
Definition joint_step (e : ensemble) (resample : F64) (bounds : opt_bounds)
    (p0 : nat) (nlnL : F64) : St (nat * F64) :=
  v <-- load p0 ;;
  res <-- lift (minimize X (fun th => negative_lnlikelihood e th resample) v bounds) ;;
  if snd res then
    p0_temp <-- alloc (fst res) ;;
    accept e resample p0 nlnL p0_temp
  else ret (p0, nlnL).

Fixpoint optimize_loop (e : ensemble) (resample : F64) (n : nat) (p0 : nat) (nlnL : F64)
    : St (nat * F64) :=
  match n with
  | O => ret (p0, nlnL)
  | S n' =>
      v <-- load p0 ;;
      let bounds := iteration_bounds (hd NaN v) in
      r1 <-- hyper_step e resample bounds p0 nlnL ;;
      r2 <-- vrot_step e resample bounds (fst r1) (snd r1) ;;
      r3 <-- joint_step e resample bounds (fst r2) (snd r2) ;;
      optimize_loop e resample n' (fst r3) (snd r3)
  end.

(** [_optimize_p0(p0, N, resample)] on a fresh heap holding the caller's
    array at location 0: the returned array, and the final heap (location 0
    is the caller's array after the call). *)
Definition optimize_p0_heap (e : ensemble) (p0 : list F64) (N : nat) (resample : F64)
    : Res (list F64 * heap) :=
  match (nlnL <-- lift (negative_lnlikelihood e p0 resample) ;;
         r <-- optimize_loop e resample N 0 nlnL ;;
         load (fst r)) [p0] with
  | Ok (v, h) => Ok (v, h)
  | Err err => Err err
  end.

Definition optimize_p0 (e : ensemble) (p0 : list F64) (N : nat) (resample : F64)
    : Res (list F64) :=
  let* r := optimize_p0_heap e p0 N resample in Ok (fst r).

(** ** Walker start positions ([get_vrot_GP], lines 111-121).

    [dev] is the [nwalkers x 4] array drawn by [np.random.randn]. *)
Definition randomize_p0 (p0 : list F64) (dev : list (list F64)) (scatter : F64)
    : list (list F64) :=
  map (fun row =>
         map (fun pd =>
                let '(p, d) := pd in
                let base := if F64.eqb p (Fin 0) then Fin 1 else p in
                let v := F64.mul base (F64.add (Fin 1) (F64.mul scatter d)) in
                if F64.eqb p (Fin 0) then F64.sub v (Fin 1) else v)
             (combine p0 row))
      dev.

(** From the resolved [p0] to the positions handed to the sampler;
    [optimize] is the number of optimisation rounds ([0] for False). *)
Definition start_positions (e : ensemble) (p0 : list F64) (optimize : nat) (resample : F64)
    (dev : list (list F64)) (scatter : F64) : Res (list (list F64)) :=
  if negb (length p0 =? 4) then Err (ValueError "Incorrect length of p0.")
  else
    let* p0 := (match optimize with O => Ok p0 | _ => optimize_p0 e p0 optimize resample end) in
    let pos := randomize_p0 p0 dev scatter in
    if existsb (existsb F64.isnan) pos then Err (ValueError "WARNING: NaNs in the p0 array.")
    else Ok pos.

End Annulus.

(** ** Stand-ins for the collaborators, for concrete evaluations. *)

(** libm's [cos], by its Taylor series to degree 24. *)
Fixpoint cos_terms (k : nat) (x2 term acc : Q) (i : nat) : Q :=
  match k with
  | O => acc
  | S k' =>
      let term' := Qred (- term * x2 / inject_Z (Z.of_nat ((2 * i + 1) * (2 * i + 2)))) in
      cos_terms k' x2 term' (Qred (acc + term')) (S i)
  end.
Definition cos_taylor (x : F64) : F64 :=
  match x with Fin q => Fin (cos_terms 12 (q * q) 1 1 0) | _ => NaN end.

(** libm's [sqrt], by eight Newton steps. *)
Fixpoint newton (k : nat) (q r : Q) : Q :=
  match k with O => r | S k' => newton k' q (Qred ((r + q / r) / 2)) end.
Definition sqrt_newton (x : F64) : F64 :=
  match x with
  | Fin q => if Qeq_bool q 0 then Fin 0 else if F64.qlt q 0 then NaN else Fin (newton 8 q 1)
  | PInf => PInf
  | _ => NaN
  end.

(** numpy's portable argsort and libm, with a Gaussian fit that fails, a GP
    whose log-likelihood is 0 and a minimizer that does not converge. *)
Definition np_ext : Externals := {|
  argsort := NpSort.argsort;
  cos := cos_taylor;
  sqrt := sqrt_newton;
  curve_fit := fun _ _ _ => None;
  quadratic := fun _ _ _ => NaN;
  gp_compute := fun _ _ _ => true;
  gp_log_likelihood := fun _ _ _ => Fin 0;
  minimize := fun _ x0 _ => Ok (x0, false)
|}.

Definition fin_list (l : list Z) : list F64 := map (fun z => Fin (inject_Z z)) l.

(** ** The claims' own wording, where it differs from a definition above. *)

(** The prior's five constraints as the specification lists them. *)
Definition prior_constraints (vrot noise lnsigma lnrho vref : F64) : bool :=
  F64.leb (F64.div (F64.abs (F64.sub vrot vref)) vref) (Fin (1#5))
  && F64.ltb (Fin 0) vrot && F64.ltb (Fin 0) noise
  && F64.ltb (Fin (-15)) lnsigma && F64.ltb lnsigma (Fin 10)
  && F64.leb (Fin 0) lnrho && F64.leb lnrho (Fin 10).

(** Number of [True] entries of a boolean mask. *)
Definition count_true (m : list bool) : nat := length (filter (fun b => b) m).

(** The method names [peak_velocities] accepts, after [.lower()]. *)
Definition known_methods : list string := ["max"%string; "quadratic"%string; "gaussian"%string].

(** The two errors of [deprojected_spectrum_maximum]. *)
Definition size_mismatch : PyErr := ValueError "Wrong size in 'vpnts' and 'spnts'.".
Definition bad_method : PyErr := ValueError "method is not 'max', 'gaussian' or 'quadratic'.".

(** A constructor input with one row of negative sum, which is dropped. *)
Definition dropped_row_spectra : list (list F64) := [fin_list [1; 1]%Z; fin_list [-1; -1]%Z].
Definition dropped_row_ensemble : Res ensemble :=
  ensemble_init np_ext dropped_row_spectra (fin_list [0; 1]%Z) (fin_list [0; 1]%Z) true true.

(** numpy's documented contract of [argsort] on one input: a permutation of
    the indices that lists the keys in ascending order. *)
Definition argsort_sorts (X : Externals) (v : list F64) : Prop :=
  Permutation (argsort X v) (seq 0 (length v))
  /\ Sorted (fun i j => F64.np_less (nth j v NaN) (nth i v NaN) = false) (argsort X v).

(** Number of rows of a 2-D input whose intensity sum is non-zero. *)
Definition nonzero_sum_rows (sp : list (list F64)) : nat :=
  length (filter (fun r => negb (F64.eqb (np_sum r) (Fin 0))) sp).

(** Seventeen spectra at one common angle, each row told apart by its first value. *)
Definition equal_angle_spectra : list (list F64) :=
  map (fun i => fin_list [Z.of_nat (S i); 1]%Z) (seq 0 17).
Definition equal_angle_ensemble : Res ensemble :=
  ensemble_init np_ext equal_angle_spectra (repeat (Fin 0) 17) (fin_list [0; 1]%Z) true true.

(** Sample [(a, c)] of a stored ensemble: its shifted coordinate
    [velax[c] - vrot * cos(theta[a])] and its intensity [spectra[a][c]]. *)
Definition sample_point (X : Externals) (e : ensemble) (vrot : F64) (a c : nat) : F64 * F64 :=
  (F64.sub (nth c (velax e) NaN) (F64.mul vrot (cos X (nth a (theta e) NaN))),
   nth c (nth a (spectra e) []) NaN).

(** Every point of a cloud [(xs, ys)] is some stored sample [(a, c)], both
    values compared as floats. *)
Definition tagged_by_stored (X : Externals) (e : ensemble) (vrot : F64)
    (xy : list F64 * list F64) : Prop :=
  forall k, (k < length (fst xy))%nat ->
  exists a c, (a < length (theta e))%nat /\ (c < length (velax e))%nat
    /\ F64.eqb (nth k (fst xy) NaN) (fst (sample_point X e vrot a c)) = true
    /\ F64.eqb (nth k (snd xy) NaN) (snd (sample_point X e vrot a c)) = true.

(** Two spectra given in descending angle order, so that sorting swaps them. *)
Definition swapped_spectra : list (list F64) := [fin_list [1; 2]%Z; fin_list [3; 4]%Z].
Definition swapped_ensemble : Res ensemble :=
  ensemble_init np_ext swapped_spectra (fin_list [1; 0]%Z) (fin_list [0; 1]%Z) true true.

(** [np_ext] with a [curve_fit] that converges to centre -5, width 2 and
    peak 10, as for a line centred at -5 km/s. *)
Definition fixed_fit_ext : Externals := {|
  argsort := NpSort.argsort;
  cos := cos_taylor;
  sqrt := sqrt_newton;
  curve_fit := fun _ _ _ => Some (Fin (-5), Fin 2, Fin 10);
  quadratic := fun _ _ _ => NaN;
  gp_compute := fun _ _ _ => true;
  gp_log_likelihood := fun _ _ _ => Fin 0;
  minimize := fun _ x0 _ => Ok (x0, false)
|}.
Definition offset_line_ensemble : Res ensemble :=
  ensemble_init fixed_fit_ext [fin_list [0; 1; 3; 1; 0]%Z] (fin_list [0]%Z)
    (fin_list [-7; -6; -5; -4; -3]%Z) true true.

(** The error [get_vrot_GP] raises on bad starting positions. *)
Definition nan_p0_error : PyErr := ValueError "WARNING: NaNs in the p0 array.".

(** A user [p0] with [lnsigma = -inf], as [_guess_parameters_GP] gives for
    spectra of zero spread ([np.log(0.0)]). *)
Definition infinite_p0 : list F64 := [Fin 1; Fin 0; NInf; Fin 5].

(** A value clipped into optional bounds, as L-BFGS-B does with [x0]. *)
Definition clip (x : F64) (b : option F64 * option F64) : F64 :=
  let x := match fst b with Some lo => if F64.ltb x lo then lo else x | None => x end in
  match snd b with Some hi => if F64.ltb hi x then hi else x | None => x end.

(** [np_ext] with a likelihood that grows as [lnsigma] falls, so that
    [nll = lnsigma], and a minimizer that reports success at [x0] clipped
    into the bounds. *)
Definition clipping_ext : Externals := {|
  argsort := NpSort.argsort;
  cos := cos_taylor;
  sqrt := sqrt_newton;
  curve_fit := fun _ _ _ => None;
  quadratic := fun _ _ _ => NaN;
  gp_compute := fun _ _ _ => true;
  gp_log_likelihood := fun _ _ th => F64.neg (nth 2 th NaN);
  minimize := fun _ x0 bnds => Ok (map (fun xb => clip (fst xb) (snd xb)) (combine x0 bnds), true)
|}.

(** Two spectra already in angle order. *)
Definition plain_ensemble : Res ensemble :=
  ensemble_init np_ext [fin_list [1; 2]%Z; fin_list [3; 4]%Z] (fin_list [0; 1]%Z)
    (fin_list [0; 1]%Z) true true.

(** A starting vector with [lnsigma = -20], below the bound [-15]. *)
Definition low_lnsigma_p0 : list F64 := fin_list [1; 1; -20; 5]%Z.





(** ** Further methods of [ensemble]. *)

(** [np.mean] of a non-empty array. *)
Definition np_mean (l : list F64) : F64 := F64.div (np_sum l) (of_nat (length l)).

(** No entry of an array is NaN. *)
Definition no_nan (l : list F64) : bool := forallb (fun t => negb (F64.isnan t)) l.

Section Methods.
Variable X : Externals.

(** [get_deprojected_width(vrot, resample)]: the width of a Gaussian fit to
    the deprojected points inside the velocity axis; [velax[0]] raises on an
    empty axis. *)
Definition get_deprojected_width (e : ensemble) (vrot resample : F64) : Res F64 :=
  let* xy := deprojected_spectrum X e vrot resample in
  match velax e with
  | [] => Err IndexError
  | v0 :: _ =>
      let mask := map (fun x => F64.leb v0 x && F64.leb x (last_or (velax e))) (fst xy) in
      let* xs := mask_idx (fst xy) mask in
      let* ys := mask_idx (snd xy) mask in
      Ok (get_gaussian_width X xs ys)
  end.

(** [sho_fit fix_theta theta vpeaks p0] is [curve_fit(_SHO, theta, vpeaks,
    p0=p0, maxfev=10000)[0]] when [fix_theta], [curve_fit(_SHOb, ...)[0]]
    otherwise, or [None] when [curve_fit] raises. *)
Variable sho_fit : bool -> list F64 -> list F64 -> list F64 -> option (list F64).

(** [guess_parameters(fit, fix_theta, method)]; the pair [(vrot, vlsr)] and
    [popt] are both returned as arrays. *)
Definition guess_parameters (e : ensemble) (fit fix_theta : bool) (method : string)
    : Res (list F64) :=
  let* vpeaks := peak_velocities X e method in
  match vpeaks with
  | [] => Err (ValueError "zero-size array to reduction operation maximum which has no identity")
  | _ =>
      let vrot := F64.mul (Fin (1#2)) (F64.sub (np_max vpeaks) (np_min vpeaks)) in
      let vlsr := np_mean vpeaks in
      if negb fit then Ok [vrot; vlsr]
      else
        match sho_fit fix_theta (theta e) vpeaks
                (if fix_theta then [vrot; vlsr] else [vrot; vlsr; Fin 0]) with
        | Some popt => Ok popt
        | None => Ok [vrot; vlsr]
        end
  end.

(** libm's [exp], elementwise as [np.exp]. *)
Variable exp : F64 -> F64.

(** [_gaussian(x, x0, dV, Tb)] on an array [x]; [np.power(z, 2.0)] is [z * z]. *)
Definition gaussian (x : list F64) (x0 dV Tb : F64) : list F64 :=
  map (fun xi => let z := F64.div (F64.sub xi x0) dV in
                 F64.mul Tb (exp (F64.neg (F64.mul z z)))) x.

(** [_thickline(x, x0, dV, Tex, tau)]. *)
Definition thickline (x : list F64) (x0 dV Tex tau : F64) : Res (list F64) :=
  if F64.leb tau (Fin 0) then Err (ValueError "Must have positive tau.")
  else Ok (map (fun g => F64.mul Tex (F64.sub (Fin 1) (exp (F64.neg g)))) (gaussian x x0 dV tau)).

End Methods.

Open Scope nat_scope.

(** * Lemmas on the float model. *)

Lemma ltb_negb_leb (a b : F64) :
  F64.isnan a = false -> F64.isnan b = false -> F64.ltb a b = negb (F64.leb b a).
Proof. destruct a, b; simpl; unfold F64.qlt; congruence. Qed.

Lemma lnprior_deviation_not_nan (v : F64) (q : Q) :
  (0 < q)%Q -> F64.isnan v = false ->
  F64.isnan (F64.div (F64.abs (F64.sub v (Fin q))) (Fin q)) = false.
Proof.
  intros Hq Hv. assert (Hq0 : Qeq_bool q 0 = false).
  { apply not_true_iff_false. intros E. apply Qeq_bool_eq in E. rewrite E in Hq.
    apply (Qlt_irrefl 0). exact Hq. }
  assert (Hqn : F64.qlt q 0 = false).
  { unfold F64.qlt. apply negb_false_iff. apply Qle_bool_iff. apply Qlt_le_weak. exact Hq. }
  destruct v; simpl in *; try discriminate; try rewrite Hq0; try rewrite Hqn; reflexivity.
Qed.

Lemma lnlikelihood_finite_or_neg_inf X e th resample l :
  lnlikelihood X e th resample = Ok l -> F64.isfinite l = true \/ l = NInf.
Proof.
  unfold lnlikelihood. destruct (masked_spectra X e th resample) as [xy|]; simpl; [|discriminate].
  destruct th as [|? [|? [|? [|? [|]]]]]; try discriminate.
  destruct (gp_compute _ _ _ _); simpl; intros H; injection H; intros <-; [|now right].
  destruct (F64.isfinite _) eqn:E; [now left|now right].
Qed.

(** * C7: the prior. *)

(** C7 (counterexample): with [vrot] NaN every rejection test of [_lnprior]
    is false, so the prior is 0.0 although [vrot > 0] fails. *)
Lemma lnprior_nan_vrot_accepted :
  lnprior [NaN; Fin 1; Fin 0; Fin 1] (Fin 1) = Ok (Fin 0)
  /\ prior_constraints NaN (Fin 1) (Fin 0) (Fin 1) (Fin 1) = false.
Proof. split; reflexivity. Qed.

(** C7 (amended): for every 4-vector and every [vref], [_lnprior] returns
    0.0 or negative infinity; when [vref] is a positive finite number and
    neither [vrot] nor [noise] is NaN, it returns 0.0 exactly when
    |vrot - vref| / vref <= 0.2, vrot > 0, noise > 0, -15 < lnsigma < 10 and
    0 <= lnrho <= 10, and negative infinity otherwise. *)
Theorem lnprior_zero_iff_constraints (vrot noise lnsigma lnrho vref : F64) :
  (lnprior [vrot; noise; lnsigma; lnrho] vref = Ok (Fin 0)
   \/ lnprior [vrot; noise; lnsigma; lnrho] vref = Ok NInf)
  /\ (forall qref, vref = Fin qref -> (0 < qref)%Q ->
      F64.isnan vrot = false -> F64.isnan noise = false ->
      lnprior [vrot; noise; lnsigma; lnrho] vref
      = Ok (if prior_constraints vrot noise lnsigma lnrho vref then Fin 0 else NInf)).
Proof.
  split.
  - unfold lnprior.
    repeat match goal with |- context [if ?b then _ else _] => destruct b end; auto.
  - intros qref -> Hq Hv Hn. unfold lnprior, prior_constraints.
    rewrite (ltb_negb_leb (Fin (1#5))) by (reflexivity || now apply lnprior_deviation_not_nan).
    rewrite (ltb_negb_leb (Fin 0) vrot) by (reflexivity || assumption).
    rewrite (ltb_negb_leb (Fin 0) noise) by (reflexivity || assumption).
    destruct (F64.leb (F64.div _ _) _), (F64.leb vrot _), (F64.leb noise _),
      (F64.ltb _ lnsigma), (F64.ltb lnsigma _), (F64.leb _ lnrho), (F64.leb lnrho _);
      reflexivity.
Qed.

(** C7 witness: [vrot = 1.1], [vref = 1] satisfies every constraint. *)
Lemma lnprior_zero_iff_constraints_witness :
  (0 < 1)%Q /\ lnprior [Fin (11#10); Fin 1; Fin 0; Fin 1] (Fin 1) = Ok (Fin 0).
Proof.
  split; [reflexivity|].
  destruct (lnprior_zero_iff_constraints (Fin (11#10)) (Fin 1) (Fin 0) (Fin 1) (Fin 1))
    as [_ H].
  rewrite (H 1%Q eq_refl); reflexivity.
Defined.

(** * C10: the log-probability. *)

(** C10: for every 4-vector, [_lnprobability] is the prior plus the
    likelihood (IEEE equality); when the prior is negative infinity it
    returns negative infinity without evaluating the likelihood, otherwise
    it evaluates the likelihood once and returns it. *)
Theorem lnprobability_prior_plus_likelihood X e (vrot noise lnsigma lnrho vref resample : F64) :
  let th := [vrot; noise; lnsigma; lnrho] in
  exists p, lnprior th vref = Ok p
  /\ (p = NInf -> lnprobability X e th vref resample = (Ok NInf, 0%nat))
  /\ (p <> NInf -> lnprobability X e th vref resample = (lnlikelihood X e th resample, 1%nat))
  /\ (forall l, lnlikelihood X e th resample = Ok l ->
      exists v, fst (lnprobability X e th vref resample) = Ok v
                /\ F64.eqb v (F64.add p l) = true).
Proof.
  intros th. unfold th.
  destruct (proj1 (lnprior_zero_iff_constraints vrot noise lnsigma lnrho vref)) as [Hp|Hp];
    eexists; (split; [exact Hp|]); unfold lnprobability; rewrite Hp; simpl.
  - split; [discriminate|]. split; [reflexivity|].
    intros l Hl. exists l. split; [exact Hl|].
    destruct (lnlikelihood_finite_or_neg_inf X e _ resample l Hl) as [Hf| ->]; [|reflexivity].
    destruct l; try discriminate. simpl. apply Qeq_bool_iff. ring.
  - split; [reflexivity|]. split; [congruence|].
    intros l Hl. exists NInf. split; [reflexivity|].
    destruct (lnlikelihood_finite_or_neg_inf X e _ resample l Hl) as [Hf| ->]; [|reflexivity].
    destruct l; try discriminate; reflexivity.
Qed.

(** * Lemmas on indexing and on the constructor. *)

Lemma take_idx_length {A} (d : A) l idxs r :
  take_idx d l idxs = Ok r -> length r = length idxs.
Proof.
  unfold take_idx. destruct (forallb _ _); intros H; inversion H; apply length_map.
Qed.

Lemma take_idx_in {A} (d : A) l idxs r :
  take_idx d l idxs = Ok r -> forall x, In x r -> In x l.
Proof.
  unfold take_idx. destruct (forallb _ _) eqn:E; intros H; inversion H; subst.
  intros x Hx. apply in_map_iff in Hx as [i [<- Hi]].
  apply nth_In. rewrite forallb_forall in E. apply Nat.ltb_lt, E, Hi.
Qed.

Lemma filter_combine_length {A} (l : list A) (m : list bool) :
  length l = length m -> length (filter snd (combine l m)) = count_true m.
Proof.
  unfold count_true. revert m. induction l as [|x l IH]; intros [|b m] H; simpl in *;
    try discriminate; try reflexivity.
  destruct b; simpl; auto.
Qed.

Lemma mask_idx_length {A} (l : list A) m r :
  mask_idx l m = Ok r -> length l = length m /\ length r = count_true m.
Proof.
  unfold mask_idx. destruct (length l =? length m) eqn:E; intros H; inversion H; subst.
  apply Nat.eqb_eq in E. split; [exact E|]. rewrite length_map.
  now apply filter_combine_length.
Qed.

Lemma mask_idx_in {A} (l : list A) m r :
  mask_idx l m = Ok r -> forall x, In x r -> In x l.
Proof.
  unfold mask_idx. destruct (_ =? _); intros H; inversion H; subst.
  intros x Hx. apply in_map_iff in Hx as [[y b] [<- Hy]].
  apply filter_In in Hy as [Hy _]. exact (in_combine_l _ _ _ _ Hy).
Qed.

Lemma count_true_lt (m : list bool) : In false m -> count_true m < length m.
Proof.
  unfold count_true. induction m as [|b m IH]; simpl; [tauto|].
  intros [->|H]; simpl.
  - pose proof (filter_length_le (fun b => b) m). lia.
  - destruct b; simpl; specialize (IH H); lia.
Qed.

(** What [__init__] stores, with [remove_empty] on. *)
Lemma init_shape X spectra0 theta0 velax0 sort e :
  ensemble_init X spectra0 theta0 velax0 true sort = Ok e ->
  length (theta e) = count_true (nonempty_mask spectra0)
  /\ length (spectra e) = count_true (nonempty_mask spectra0)
  /\ (forall r, In r (spectra e) -> In r spectra0)
  /\ spectra_flat e = concat spectra0
  /\ velax e = velax0
  /\ 2 <= length velax0.
Proof.
  unfold ensemble_init.
  set (sorted := if sort then _ else _).
  assert (Hs : forall ts, sorted = Ok ts -> forall r, In r (snd ts) -> In r spectra0).
  { intros ts. subst sorted. destruct sort.
    - destruct (take_idx [] spectra0 _) as [sp|] eqn:Hsp; simpl; [|discriminate].
      destruct (take_idx NaN theta0 _) as [th|] eqn:Hth; simpl; [|discriminate].
      intros H; inversion H; subst; simpl. exact (take_idx_in _ _ _ _ Hsp).
    - intros H; inversion H; subst; simpl. tauto. }
  destruct sorted as [ts|]; simpl; [|discriminate].
  specialize (Hs ts eq_refl).
  destruct (mask_idx (fst ts) _) as [th|] eqn:Hth; simpl; [|discriminate].
  destruct (mask_idx (snd ts) _) as [sp|] eqn:Hsp; simpl; [|discriminate].
  destruct (length th <? 1); [discriminate|].
  destruct velax0 as [|v0 [|v1 vs]]; try discriminate.
  intros H; inversion H; subst; simpl.
  apply mask_idx_length in Hth as [_ Hth]. pose proof (mask_idx_in _ _ _ Hsp) as Hin.
  apply mask_idx_length in Hsp as [_ Hsp].
  repeat split; auto. simpl; lia.
Qed.

Lemma argmax_from_bound l i best bv :
  best < i -> argmax_from l i best bv < i + length l.
Proof.
  revert i best bv. induction l as [|v l IH]; intros i best bv H; simpl; [lia|].
  destruct (F64.isnan bv); [lia|].
  destruct (_ || _).
  - specialize (IH (S i) i v). lia.
  - specialize (IH (S i) best bv). lia.
Qed.

Lemma argmax_bound l : l <> [] -> argmax l < length l.
Proof.
  destruct l as [|v l]; [congruence|]. intros _. unfold argmax.
  pose proof (argmax_from_bound l 1 0 v). simpl. lia.
Qed.

Lemma concat_length_rect {A} (rows : list (list A)) n :
  Forall (fun r => length r = n) rows -> length (concat rows) = length rows * n.
Proof.
  induction 1 as [|r rows Hr _ IH]; simpl; [reflexivity|].
  rewrite length_app, IH, Hr. lia.
Qed.

Lemma concat_map_length {A B} (h : A -> list B) (xs : list A) n :
  (forall a, length (h a) = n) -> length (concat (map h xs)) = length xs * n.
Proof.
  intros Hh. induction xs as [|a xs IH]; simpl; [reflexivity|].
  rewrite length_app, Hh, IH. lia.
Qed.

Lemma mapM_length {A B} (f : A -> Res B) l r : mapM f l = Ok r -> length r = length l.
Proof.
  revert r. induction l as [|x l IH]; simpl; intros r H; [now inversion H|].
  destruct (f x) as [y|]; simpl in H; [|discriminate].
  destruct (mapM f l) as [ys|]; simpl in H; [|discriminate].
  inversion H; subst. simpl. now rewrite (IH ys).
Qed.

Lemma mapM_ok {A B} (f : A -> Res B) l :
  (forall x, In x l -> exists y, f x = Ok y) -> exists r, mapM f l = Ok r.
Proof.
  induction l as [|x l IH]; simpl; intros H; [eauto|].
  destruct (H x (or_introl eq_refl)) as [y Hy]. rewrite Hy. simpl.
  destruct IH as [r Hr]; [eauto|]. rewrite Hr. simpl. eauto.
Qed.

Lemma get_gaussian_center_ok X x y :
  y <> [] -> length y = length x -> exists c, get_gaussian_center X x y = Ok c.
Proof.
  intros Hy Hl. unfold get_gaussian_center.
  destruct (fit_gaussian X x y) as [[x0 dV] Tb].
  destruct (F64.isfinite x0); [eauto|].
  destruct y as [|v y']; [congruence|].
  pose proof (argmax_bound (v :: y') Hy) as Hb. rewrite Hl in Hb.
  apply Nat.ltb_lt in Hb. unfold take_idx. cbn [forallb]. rewrite Hb. simpl. eauto.
Qed.

(** [peak_velocities] with a known method gives one value per stored
    spectrum when the spectra are as long as the velocity axis. *)
Lemma peak_velocities_length X e method :
  In (lower method) known_methods -> velax e <> [] ->
  Forall (fun r => length r = length (velax e)) (spectra e) ->
  exists vmax, peak_velocities X e method = Ok vmax /\ length vmax = length (spectra e).
Proof.
  intros Hm Hv Hr. rewrite Forall_forall in Hr. unfold peak_velocities.
  destruct (String.eqb (lower method) "max") eqn:Emax.
  { unfold take_idx.
    replace (forallb _ _) with true.
    - eexists; split; [reflexivity|]. now rewrite !length_map.
    - symmetry. apply forallb_forall. intros i Hi. apply in_map_iff in Hi as [r [<- Hin]].
      apply Nat.ltb_lt. rewrite <- (Hr r Hin). apply argmax_bound.
      intros ->. specialize (Hr [] Hin). simpl in Hr. destruct (velax e); [congruence|discriminate]. }
  destruct (String.eqb (lower method) "quadratic") eqn:Equad.
  { eexists; split; [reflexivity|]. apply length_map. }
  destruct (String.eqb (lower method) "gaussian") eqn:Egau.
  { destruct (mapM_ok (get_gaussian_center X (velax e)) (spectra e)) as [r Hres].
    - intros y Hin. apply get_gaussian_center_ok; [|exact (Hr y Hin)].
      intros ->. specialize (Hr [] Hin). simpl in Hr. destruct (velax e); [congruence|discriminate].
    - exists r. split; [exact Hres|]. exact (mapM_length _ _ _ Hres). }
  exfalso. unfold known_methods in Hm. simpl in Hm.
  destruct Hm as [H|[H|[H|[]]]]; rewrite <- H in *; discriminate.
Qed.

Lemma order_spectra_mismatch X e vpnts :
  length (spectra_flat e) <> length vpnts -> order_spectra X e vpnts None = Err size_mismatch.
Proof.
  intros H. unfold order_spectra. apply Nat.eqb_neq in H. rewrite H. reflexivity.
Qed.

(** C2 (amended): after the constructor dropped a row, [deprojected_spectrum]
    always raises the size-mismatch error of [_order_spectra], and so does
    [deprojected_spectrum_maximum] for a known peak method; an unknown method
    name raises the method error of [peak_velocities] instead. *)
Theorem removed_rows_break_deprojection X sp th vel sort e :
  ensemble_init X sp th vel true sort = Ok e ->
  Forall (fun r => length r = length vel) sp ->
  In false (nonempty_mask sp) ->
  (forall vrot resample, deprojected_spectrum X e vrot resample = Err size_mismatch)
  /\ (forall resample method, In (lower method) known_methods ->
        deprojected_spectrum_maximum X e resample method = Err size_mismatch)
  /\ (forall resample method, ~ In (lower method) known_methods ->
        deprojected_spectrum_maximum X e resample method = Err bad_method).
Proof.
  intros Hinit Hrows Hdrop.
  destruct (init_shape X sp th vel sort e Hinit) as (Ht & Hs & Hin & Hflat & Hvel & H2).
  pose proof (count_true_lt _ Hdrop) as Hlt.
  unfold nonempty_mask in Hlt at 2. rewrite length_map in Hlt.
  assert (Hflen : length (spectra_flat e) = length sp * length vel)
    by (rewrite Hflat; now apply concat_length_rect).
  assert (Hne : forall k, k < length sp -> length (spectra_flat e) <> k * length vel).
  { intros k Hk. rewrite Hflen. intros Heq. apply Nat.mul_cancel_r in Heq; lia. }
  assert (Hrows' : Forall (fun r => length r = length (velax e)) (spectra e)).
  { apply Forall_forall. intros r Hr. rewrite Hvel. rewrite Forall_forall in Hrows.
    exact (Hrows r (Hin r Hr)). }
  split; [|split].
  - intros vrot resample. unfold deprojected_spectrum.
    rewrite order_spectra_mismatch; [reflexivity|].
    unfold shifted_points.
    rewrite (concat_map_length _ _ (length (velax e))) by (intros; apply length_map).
    rewrite Hvel. apply Hne. lia.
  - intros resample method Hm.
    destruct (peak_velocities_length X e method Hm) as [vmax [Hpv Hlen]];
      [rewrite Hvel; intros ->; simpl in H2; lia | exact Hrows' |].
    unfold deprojected_spectrum_maximum. rewrite Hpv. simpl.
    rewrite order_spectra_mismatch; [reflexivity|].
    rewrite (concat_map_length _ _ (length (velax e))) by (intros; apply length_map).
    rewrite length_map, Hlen, Hvel. apply Hne. lia.
  - intros resample method Hm. unfold deprojected_spectrum_maximum, peak_velocities.
    unfold known_methods in Hm. simpl in Hm.
    destruct (String.eqb_spec (lower method) "max") as [Eq|_]; [rewrite Eq in Hm; tauto|].
    destruct (String.eqb_spec (lower method) "quadratic") as [Eq|_]; [rewrite Eq in Hm; tauto|].
    destruct (String.eqb_spec (lower method) "gaussian") as [Eq|_]; [rewrite Eq in Hm; tauto|].
    reflexivity.
Qed.

Lemma removed_rows_break_deprojection_witness :
  match dropped_row_ensemble with
  | Ok e => forall vrot resample, deprojected_spectrum np_ext e vrot resample = Err size_mismatch
  | Err _ => False
  end.
Proof.
  unfold dropped_row_ensemble.
  destruct (ensemble_init np_ext dropped_row_spectra (fin_list [0; 1]%Z) (fin_list [0; 1]%Z) true true)
    as [e|err] eqn:He; [|vm_compute in He; discriminate].
  apply (removed_rows_break_deprojection np_ext dropped_row_spectra
           (fin_list [0; 1]%Z) (fin_list [0; 1]%Z) true e He).
  - repeat constructor.
  - simpl. right. left. reflexivity.
Defined.

(** C2 (counterexample): with a dropped row, an unknown method name makes
    [deprojected_spectrum_maximum] raise the method error, not the
    size-mismatch error. *)
Lemma removed_rows_bad_method_counterexample :
  match dropped_row_ensemble with
  | Ok e => deprojected_spectrum_maximum np_ext e (Fin 0) "foo" = Err bad_method
            /\ deprojected_spectrum_maximum np_ext e (Fin 0) "foo" <> Err size_mismatch
  | Err _ => False
  end.
Proof. vm_compute. split; [reflexivity | discriminate]. Qed.

(** * Sorting by angle. *)

Lemma F64_leb_trans a b c : F64.leb a b = true -> F64.leb b c = true -> F64.leb a c = true.
Proof.
  destruct a, b, c; simpl; try discriminate; try reflexivity.
  intros H1 H2. apply Qle_bool_iff in H1, H2. apply Qle_bool_iff. eapply Qle_trans; eauto.
Qed.

Lemma np_less_false_leb a b :
  F64.isnan a = false -> F64.isnan b = false -> F64.np_less b a = false -> F64.leb a b = true.
Proof.
  intros Ha Hb. unfold F64.np_less. rewrite Ha, andb_false_l, orb_false_r.
  rewrite ltb_negb_leb by assumption. destruct (F64.leb a b); easy.
Qed.

Lemma take_idx_map {A} (d : A) l idxs r :
  take_idx d l idxs = Ok r ->
  r = map (fun i => nth i l d) idxs /\ forall i, In i idxs -> i < length l.
Proof.
  unfold take_idx. destruct (forallb _ _) eqn:E; intros H; inversion H; subst.
  split; [reflexivity|]. intros i Hi. rewrite forallb_forall in E. apply Nat.ltb_lt, E, Hi.
Qed.

Lemma Sorted_map_in {A B} (R' : A -> A -> Prop) (R : B -> B -> Prop) (f : A -> B) l :
  (forall i j, In i l -> In j l -> R' i j -> R (f i) (f j)) -> Sorted R' l -> Sorted R (map f l).
Proof.
  induction l as [|a l IH]; intros H HS; simpl; [constructor|].
  inversion HS as [|? ? HSl Hhd]; subst. constructor.
  - apply IH; [|exact HSl]. intros i j Hi Hj. apply H; simpl; auto.
  - destruct l as [|b l]; simpl; constructor. inversion Hhd; subst.
    apply H; simpl; auto.
Qed.

Lemma masked_in {A} (l : list A) (m : list bool) x :
  In x (map fst (filter snd (combine l m))) -> In x l.
Proof.
  intros Hx. apply in_map_iff in Hx as [[y b] [<- Hy]].
  apply filter_In in Hy as [Hy _]. exact (in_combine_l _ _ _ _ Hy).
Qed.

Lemma StronglySorted_mask {A} (R : A -> A -> Prop) (l : list A) (m : list bool) :
  StronglySorted R l -> StronglySorted R (map fst (filter snd (combine l m))).
Proof.
  revert m. induction l as [|a l IH]; intros [|b m] HS; simpl; try constructor.
  inversion HS as [|? ? HSl Hall]; subst.
  destruct b; simpl; [constructor|]; auto.
  rewrite Forall_forall in *. intros x Hx. apply Hall. exact (masked_in _ _ _ Hx).
Qed.

(** With sorting on, numpy's [argsort] contract and no NaN angle, the
    stored angles are non-decreasing, with or without [remove_empty]. *)
Lemma init_theta_sorted X spectra0 theta0 velax0 remove_empty e :
  argsort_sorts X theta0 ->
  forallb (fun t => negb (F64.isnan t)) theta0 = true ->
  ensemble_init X spectra0 theta0 velax0 remove_empty true = Ok e ->
  StronglySorted (fun a b => F64.leb a b = true) (theta e).
Proof.
  intros [_ Hsort] Hnan. unfold ensemble_init.
  destruct (take_idx [] spectra0 _) as [sp|] eqn:Hsp; simpl; [|discriminate].
  destruct (take_idx NaN theta0 _) as [th|] eqn:Hth; simpl; [|discriminate].
  apply take_idx_map in Hth as [-> Hrange].
  assert (HS : StronglySorted (fun a b => F64.leb a b = true)
                 (map (fun i => nth i theta0 NaN) (argsort X theta0))).
  { apply Sorted_StronglySorted; [intros a b c; apply F64_leb_trans|].
    refine (Sorted_map_in _ _ _ _ _ Hsort). intros i j Hi Hj H.
    rewrite forallb_forall in Hnan.
    apply np_less_false_leb; [| |exact H]; apply negb_true_iff, Hnan, nth_In, Hrange; assumption. }
  destruct remove_empty.
  - destruct (mask_idx _ (nonempty_mask spectra0)) as [th'|] eqn:Hm; simpl; [|discriminate].
    destruct (mask_idx sp _) as [sp'|]; simpl; [|discriminate].
    destruct (length th' <? 1); [discriminate|].
    destruct velax0 as [|v0 [|v1 vs]]; try discriminate.
    intros H; inversion H; subst; simpl.
    unfold mask_idx in Hm. destruct (_ =? _); inversion Hm; subst.
    apply StronglySorted_mask, HS.
  - simpl. destruct (length _ <? 1); [discriminate|].
    destruct velax0 as [|v0 [|v1 vs]]; try discriminate.
    intros H; inversion H; subst; simpl. exact HS.
Qed.

Lemma count_true_map {A} (f : A -> bool) l : count_true (map f l) = length (filter f l).
Proof.
  unfold count_true. induction l as [|a l IH]; simpl; [reflexivity|].
  destruct (f a); simpl; auto.
Qed.

(** C4 (amended): with sorting on, and when numpy's [argsort] meets its
    contract on the angles and no angle is NaN, the stored angles are in
    non-decreasing order. Entries of equal angle come in the order numpy's
    default (introsort) [argsort] returns, which need not be their input
    order. *)
Theorem sorted_angles_nondecreasing X spectra0 theta0 velax0 remove_empty e :
  argsort_sorts X theta0 ->
  forallb (fun t => negb (F64.isnan t)) theta0 = true ->
  ensemble_init X spectra0 theta0 velax0 remove_empty true = Ok e ->
  Sorted (fun a b => F64.leb a b = true) (theta e).
Proof.
  intros Hs Hn Hi. apply StronglySorted_Sorted. exact (init_theta_sorted X _ _ _ _ _ Hs Hn Hi).
Qed.

Lemma sorted_angles_nondecreasing_witness :
  match ensemble_init np_ext [fin_list [1; 1]%Z; fin_list [2; 2]%Z] (fin_list [0; 1]%Z)
          (fin_list [0; 1]%Z) true true with
  | Ok e => Sorted (fun a b => F64.leb a b = true) (theta e)
  | Err _ => False
  end.
Proof.
  destruct (ensemble_init np_ext _ _ _ true true) as [e|err] eqn:He;
    [|vm_compute in He; discriminate].
  apply (sorted_angles_nondecreasing np_ext [fin_list [1; 1]%Z; fin_list [2; 2]%Z] (fin_list [0; 1]%Z)
           (fin_list [0; 1]%Z) true e); [| vm_compute; reflexivity | exact He].
  split; vm_compute; [apply Permutation_refl | repeat constructor].
Defined.

(** C4 (counterexample): numpy's default [argsort] is not stable. Seventeen
    spectra at one angle are stored with input row 14 in second place, not
    input row 1. *)
Lemma equal_angles_not_stable_counterexample :
  match equal_angle_ensemble with
  | Ok e => theta e = repeat (Fin 0) 17
            /\ nth 1 (spectra e) [] = nth 14 equal_angle_spectra []
            /\ nth 1 (spectra e) [] <> nth 1 equal_angle_spectra []
  | Err _ => False
  end.
Proof. vm_compute. split; [reflexivity | split; [reflexivity | discriminate]]. Qed.

(** C9 (amended): with the default options, numpy's [argsort] contract on
    the angles and no NaN angle, the stored angles are non-decreasing, and
    there are as many stored angles as stored spectra, namely the number of
    input rows whose intensity sum is strictly positive. *)
Theorem default_init_sorted_and_counted X spectra0 theta0 velax0 e :
  argsort_sorts X theta0 ->
  forallb (fun t => negb (F64.isnan t)) theta0 = true ->
  ensemble_init X spectra0 theta0 velax0 true true = Ok e ->
  Sorted (fun a b => F64.leb a b = true) (theta e)
  /\ length (theta e) = length (spectra e)
  /\ length (spectra e) = length (filter (fun r => F64.ltb (Fin 0) (np_sum r)) spectra0).
Proof.
  intros Hs Hn Hi.
  destruct (init_shape X _ _ _ _ _ Hi) as (Ht & Hsp & _).
  unfold nonempty_mask in Ht, Hsp. rewrite count_true_map in Ht, Hsp.
  split; [apply StronglySorted_Sorted; exact (init_theta_sorted X _ _ _ _ _ Hs Hn Hi)|].
  split; congruence.
Qed.

Lemma default_init_sorted_and_counted_witness :
  match ensemble_init np_ext [fin_list [2; 2]%Z; fin_list [0; 0]%Z; fin_list [1; 1]%Z]
          (fin_list [2; 0; 1]%Z) (fin_list [0; 1]%Z) true true with
  | Ok e => Sorted (fun a b => F64.leb a b = true) (theta e)
            /\ length (theta e) = length (spectra e)
            /\ length (spectra e) = 2
  | Err _ => False
  end.
Proof.
  destruct (ensemble_init np_ext _ _ _ true true) as [e|err] eqn:He;
    [|vm_compute in He; discriminate].
  destruct (default_init_sorted_and_counted np_ext
              [fin_list [2; 2]%Z; fin_list [0; 0]%Z; fin_list [1; 1]%Z]
              (fin_list [2; 0; 1]%Z) (fin_list [0; 1]%Z) e) as (H1 & H2 & H3);
    [| vm_compute; reflexivity | exact He | split; [exact H1 | split; [exact H2 | rewrite H3; reflexivity]]].
  split; vm_compute; [| repeat constructor].
  exact (Permutation_app_comm [1; 2] [0]).
Defined.

(** C9 (counterexample): rows of sums 2 and -2 are both non-zero, but the
    constructor keeps only the row of positive sum. *)
Lemma negative_sum_row_dropped_counterexample :
  nonzero_sum_rows dropped_row_spectra = 2
  /\ match dropped_row_ensemble with
     | Ok e => length (theta e) = 1 /\ length (spectra e) = 1
     | Err _ => False
     end.
Proof. vm_compute. repeat split. Qed.

(** * The merged point cloud. *)

(** C1 (code bug): [spectra_flat] is the unsorted input, so once sorting
    reorders the rows the cloud of [deprojected_spectrum] pairs coordinates
    with another sample's intensity. With rows [[1, 2], [3, 4]] at angles
    [1, 0], [vrot = 1] and no resampling, the first point is [(-1, 1)]: no
    stored sample has this coordinate and this intensity. *)
Theorem deprojected_cloud_mistagged :
  match swapped_ensemble with
  | Ok e =>
      match deprojected_spectrum np_ext e (Fin 1) (Fin 0) with
      | Ok xy => F64.eqb (nth 0 (fst xy) NaN) (Fin (-1)) = true
                 /\ nth 0 (snd xy) NaN = Fin 1
                 /\ ~ tagged_by_stored np_ext e (Fin 1) xy
      | Err _ => False
      end
  | Err _ => False
  end.
Proof.
  destruct swapped_ensemble as [e|err] eqn:He; [|vm_compute in He; discriminate].
  destruct (deprojected_spectrum np_ext e (Fin 1) (Fin 0)) as [xy|err] eqn:Hd;
    [|vm_compute in He; injection He; intros <-; vm_compute in Hd; discriminate].
  vm_compute in He; injection He; intros <-.
  vm_compute in Hd; injection Hd; intros <-.
  split; [vm_compute; reflexivity | split; [reflexivity|]].
  intros H. destruct (H 0) as (a & c & Ha & Hc & Hx & Hy); [simpl; lia|].
  simpl in Ha, Hc.
  destruct a as [|[|a]]; [| |lia]; destruct c as [|[|c]]; try lia;
    vm_compute in Hx, Hy; discriminate.
Qed.

(** * Line centres. *)

Lemma mapM_nth {A B} (f : A -> Res B) l r k (d : A) (d' : B) :
  mapM f l = Ok r -> k < length l -> f (nth k l d) = Ok (nth k r d').
Proof.
  revert r k. induction l as [|x l IH]; intros r k H Hk; simpl in Hk; [lia|].
  simpl in H. destruct (f x) as [y|] eqn:Hy; simpl in H; [|discriminate].
  destruct (mapM f l) as [ys|] eqn:Hys; simpl in H; [|discriminate].
  injection H; intros <-. destruct k as [|k]; simpl; [exact Hy|].
  apply IH; [reflexivity | lia].
Qed.

(** C5 (code bug): when the Gaussian fit of spectrum [k] gives a finite
    centre [x0], [peak_velocities(method='gaussian')] returns [|x0|], which
    is not [x0] when the centre is negative. *)
Theorem gaussian_peak_is_abs_center X e vmax k q dV tb :
  peak_velocities X e "gaussian" = Ok vmax ->
  k < length (spectra e) ->
  fit_gaussian X (velax e) (nth k (spectra e) []) = (Fin q, dV, tb) ->
  nth k vmax NaN = Fin (Qabs q)
  /\ ((q < 0)%Q -> F64.eqb (nth k vmax NaN) (Fin q) = false).
Proof.
  intros Hpv Hk Hfit. unfold peak_velocities in Hpv. simpl in Hpv.
  pose proof (mapM_nth _ _ _ k [] NaN Hpv Hk) as Hc.
  unfold get_gaussian_center in Hc. rewrite Hfit in Hc. simpl in Hc.
  injection Hc; intros <-. split; [reflexivity|].
  intros Hq. simpl. apply not_true_iff_false. intros E. apply Qeq_bool_eq in E.
  rewrite Qabs_neg in E by (apply Qlt_le_weak; exact Hq).
  assert (q == 0)%Q as Hq0.
  { apply (Qplus_inj_l _ _ q) in E. rewrite Qplus_opp_r in E.
    apply Qeq_sym in E. rewrite <- (Qmult_1_l q) in E at 1 2.
    rewrite <- Qmult_plus_distr_l in E. 
    apply Qmult_integral in E as [E|E]; [discriminate|exact E]. }
  rewrite Hq0 in Hq. apply (Qlt_irrefl 0). exact Hq.
Qed.

Lemma gaussian_peak_is_abs_center_witness :
  match offset_line_ensemble with
  | Ok e =>
      match peak_velocities fixed_fit_ext e "gaussian" with
      | Ok vmax => nth 0 vmax NaN = Fin 5 /\ F64.eqb (nth 0 vmax NaN) (Fin (-5)) = false
      | Err _ => False
      end
  | Err _ => False
  end.
Proof.
  destruct offset_line_ensemble as [e|err] eqn:He; [|vm_compute in He; discriminate].
  destruct (peak_velocities fixed_fit_ext e "gaussian") as [vmax|err] eqn:Hp;
    [|vm_compute in He; injection He; intros <-; vm_compute in Hp; discriminate].
  destruct (gaussian_peak_is_abs_center fixed_fit_ext e vmax 0 (-5) (Fin 2) (Fin 10) Hp)
    as [H1 H2].
  - vm_compute in He; injection He; intros <-. simpl. lia.
  - vm_compute in He; injection He; intros <-. vm_compute. reflexivity.
  - split; [rewrite H1; reflexivity | apply H2; reflexivity].
Defined.

(** * Starting positions of the walkers. *)

(** C8 (amended): once [p0] has length 4 and the optional optimisation
    returned [p0'], [get_vrot_GP] raises its starting-position error exactly
    when some jittered component is NaN; positions with infinite but no NaN
    components are handed to the sampler. *)
Theorem start_positions_reject_nan_only X e p0 p0' optimize resample dev scatter :
  length p0 = 4 ->
  match optimize with O => Ok p0 | _ => optimize_p0 X e p0 optimize resample end = Ok p0' ->
  (start_positions X e p0 optimize resample dev scatter = Err nan_p0_error
   <-> exists row x, In row (randomize_p0 p0' dev scatter) /\ In x row /\ F64.isnan x = true)
  /\ ((forall row x, In row (randomize_p0 p0' dev scatter) -> In x row -> F64.isnan x = false) ->
      start_positions X e p0 optimize resample dev scatter = Ok (randomize_p0 p0' dev scatter)).
Proof.
  intros Hlen Hopt. unfold start_positions. rewrite Hlen. simpl negb. cbv iota.
  rewrite Hopt. simpl.
  set (pos := randomize_p0 p0' dev scatter).
  assert (Hex : existsb (existsb F64.isnan) pos = true
                <-> exists row x, In row pos /\ In x row /\ F64.isnan x = true).
  { rewrite existsb_exists. split.
    - intros [row [Hr Hx]]. apply existsb_exists in Hx as [x [Hx Hn]]. eauto.
    - intros (row & x & Hr & Hx & Hn). exists row. split; [exact Hr|].
      apply existsb_exists. eauto. }
  split.
  - rewrite <- Hex. destruct (existsb _ pos); split; intros H; try reflexivity; discriminate.
  - intros Hall. destruct (existsb _ pos) eqn:E; [|reflexivity].
    destruct (proj1 Hex eq_refl) as (row & x & Hr & Hx & Hn).
    rewrite (Hall row x Hr Hx) in Hn. discriminate.
Qed.

Lemma start_positions_reject_nan_only_witness :
  start_positions np_ext (mkEnsemble [] [] [] [] [] NaN (NaN, NaN) (NaN, NaN))
    infinite_p0 0 (Fin 0) [fin_list [0; 0; 0; 0]%Z] (Fin (1 # 100))
  = Ok (randomize_p0 infinite_p0 [fin_list [0; 0; 0; 0]%Z] (Fin (1 # 100))).
Proof.
  apply (start_positions_reject_nan_only np_ext (mkEnsemble [] [] [] [] [] NaN (NaN, NaN) (NaN, NaN))
           infinite_p0 infinite_p0 0 (Fin 0) [fin_list [0; 0; 0; 0]%Z] (Fin (1 # 100)));
    [reflexivity | reflexivity |].
  intros row x Hr Hx. vm_compute in Hr. destruct Hr as [<-|[]].
  simpl in Hx. destruct Hx as [<-|[<-|[<-|[<-|[]]]]]; reflexivity.
Defined.

(** C8 (counterexample): with [p0 = (1, 0, -inf, 5)] and no optimisation
    the jittered positions keep [-inf], and no error is raised. *)
Lemma infinite_start_position_counterexample :
  match start_positions np_ext (mkEnsemble [] [] [] [] [] NaN (NaN, NaN) (NaN, NaN))
          infinite_p0 0 (Fin 0) [fin_list [0; 0; 0; 0]%Z] (Fin (1 # 100)) with
  | Ok [row] => nth 2 row NaN = NInf
  | _ => False
  end.
Proof. vm_compute. reflexivity. Qed.

(** * Optimisation of the starting vector. *)

(** C3 (code bug): [p0_temp = p0] aliases the array, so the slice
    assignment of a rejected hyper-parameter step still overwrites [p0].
    From [p0 = (1, 1, -20, 5)], with a minimizer that succeeds at the clipped
    point and [nll = lnsigma], every step is rejected ([-15] is not below
    [-20]), yet [_optimize_p0] returns [(1, 1, -15, 5)], of higher negative
    log-likelihood than its input, and the caller's array is changed too. *)
Theorem optimize_p0_rejected_step_leaks :
  match plain_ensemble with
  | Ok e =>
      negative_lnlikelihood clipping_ext e low_lnsigma_p0 (Fin 0) = Ok (Fin (-20))
      /\ match optimize_p0_heap clipping_ext e low_lnsigma_p0 1 (Fin 0) with
         | Ok (p, h) =>
             p = fin_list [1; 1; -15; 5]%Z
             /\ nth 0 h [] = fin_list [1; 1; -15; 5]%Z
             /\ negative_lnlikelihood clipping_ext e p (Fin 0) = Ok (Fin (-15))
         | Err _ => False
         end
  | Err _ => False
  end.
Proof. vm_compute. repeat split. Qed.

(** * Resampling. *)

























Lemma np_linspace_ok lo hi (n : Z) :
  (1 <= n)%Z -> np_linspace lo hi (n + 1) = Ok (linspace lo hi (Z.to_nat n)).
Proof.
  intros Hn. unfold np_linspace. replace (n + 1 <? 0)%Z with false by (symmetry; apply Z.ltb_ge; lia).
  replace (Z.to_nat (n + 1)) with (S (Z.to_nat n)) by lia.
  destruct (Z.to_nat n) as [|m] eqn:E; [lia|reflexivity].
Qed.





Lemma nth_map_seq {A} (g : nat -> A) s n k d :
  k < n -> nth k (map g (seq s n)) d = g (s + k).
Proof.
  intros Hk. rewrite (nth_indep _ d (g 0)) by (rewrite length_map, length_seq; lia).
  rewrite map_nth, seq_nth by lia. reflexivity.
Qed.



(** * Further properties of the module. *)

(** ** The float order on non-NaN values. *)

Lemma F64_leb_refl a : F64.isnan a = false -> F64.leb a a = true.
Proof. destruct a; simpl; try discriminate; try reflexivity. intros _. apply Qle_bool_iff, Qle_refl. Qed.

Lemma F64_ltb_leb a b : F64.ltb a b = true -> F64.leb a b = true.
Proof.
  destruct a, b; simpl; try discriminate; try reflexivity.
  unfold F64.qlt. intros H. apply negb_true_iff, not_true_iff_false in H.
  apply Qle_bool_iff. apply Qlt_le_weak, Qnot_le_lt. intros C. apply H, Qle_bool_iff, C.
Qed.

Lemma F64_ltb_leb_trans a b c : F64.ltb a b = true -> F64.leb b c = true -> F64.ltb a c = true.
Proof.
  destruct a, b, c; simpl; try discriminate; try reflexivity. unfold F64.qlt.
  intros H1 H2. apply negb_true_iff, not_true_iff_false in H1. apply Qle_bool_iff in H2.
  apply negb_true_iff, not_true_iff_false. intros C. apply Qle_bool_iff in C.
  apply H1, Qle_bool_iff. eapply Qle_trans; eauto.
Qed.

Lemma F64_leb_ltb_trans a b c : F64.leb a b = true -> F64.ltb b c = true -> F64.ltb a c = true.
Proof.
  destruct a, b, c; simpl; try discriminate; try reflexivity. unfold F64.qlt.
  intros H1 H2. apply negb_true_iff, not_true_iff_false in H2. apply Qle_bool_iff in H1.
  apply negb_true_iff, not_true_iff_false. intros C. apply Qle_bool_iff in C.
  apply H2, Qle_bool_iff. eapply Qle_trans; eauto.
Qed.

Lemma F64_not_ltb_leb a b :
  F64.isnan a = false -> F64.isnan b = false -> F64.ltb a b = false -> F64.leb b a = true.
Proof. intros Ha Hb H. rewrite ltb_negb_leb in H by assumption. now apply negb_false_iff. Qed.

Lemma no_nan_nth l j : no_nan l = true -> j < length l -> F64.isnan (nth j l NaN) = false.
Proof.
  intros H Hj. unfold no_nan in H. rewrite forallb_forall in H.
  apply negb_true_iff, H, nth_In, Hj.
Qed.

Lemma argmax_from_spec L : forall i best,
  no_nan L = true -> best < i -> i <= length L ->
  (forall j, j < i -> F64.leb (nth j L NaN) (nth best L NaN) = true) ->
  (forall j, j < best -> F64.ltb (nth j L NaN) (nth best L NaN) = true) ->
  let r := argmax_from (skipn i L) i best (nth best L NaN) in
  r < length L
  /\ (forall j, j < length L -> F64.leb (nth j L NaN) (nth r L NaN) = true)
  /\ (forall j, j < r -> F64.ltb (nth j L NaN) (nth r L NaN) = true).
Proof.
  intros i best Hn. remember (length L - i) as m eqn:Hm. revert i best Hm.
  induction m as [|m IH]; intros i best Hm Hb Hi Hle Hlt r.
  - assert (i = length L) as -> by lia. subst r. rewrite skipn_all. simpl.
    split; [lia|]. split; assumption.
  - assert (Hi' : i < length L) by lia.
    assert (Hs : skipn i L = nth i L NaN :: skipn (S i) L).
    { clear -Hi'. revert i Hi'. induction L as [|a L IHL]; intros [|i] H; simpl in *; try lia;
        [reflexivity|]. apply IHL. lia. }
    subst r. rewrite Hs. cbn [argmax_from].
    rewrite (no_nan_nth L best Hn ltac:(lia)), (no_nan_nth L i Hn Hi'). cbn [orb negb].
    destruct (F64.ltb (nth best L NaN) (nth i L NaN)) eqn:E.
    + apply (IH (S i) i); try lia.
      * intros j Hj. destruct (Nat.eq_dec j i) as [->|Hne].
        -- apply F64_leb_refl, no_nan_nth; assumption.
        -- apply F64_ltb_leb. apply (F64_leb_ltb_trans _ (nth best L NaN)); [apply Hle; lia|exact E].
      * intros j Hj. apply (F64_leb_ltb_trans _ (nth best L NaN)); [apply Hle; lia|exact E].
    + apply (IH (S i) best); try lia; [|exact Hlt].
      intros j Hj. destruct (Nat.eq_dec j i) as [->|Hne]; [|apply Hle; lia].
      apply F64_not_ltb_leb; [apply no_nan_nth; [exact Hn|lia] .. | exact E].
Qed.

(** [np.argmax] of a non-empty NaN-free array is the first index of the
    largest value. *)
Lemma argmax_spec L :
  L <> [] -> no_nan L = true ->
  argmax L < length L
  /\ (forall j, j < length L -> F64.leb (nth j L NaN) (nth (argmax L) L NaN) = true)
  /\ (forall j, j < argmax L -> F64.ltb (nth j L NaN) (nth (argmax L) L NaN) = true).
Proof.
  intros Hne Hn. destruct L as [|v L']; [congruence|].
  pose proof (argmax_from_spec (v :: L') 1 0 Hn ltac:(lia) ltac:(simpl; lia)) as H.
  cbn zeta in H. simpl skipn in H. simpl nth in H. unfold argmax. apply H.
  - intros j Hj. assert (j = 0) as -> by lia. apply F64_leb_refl.
    apply (no_nan_nth (v :: L') 0 Hn). simpl; lia.
  - intros j Hj; lia.
Qed.

(** The [max] method of [peak_velocities]: for NaN-free spectra with one
    value per channel, the peak of spectrum [k] is [velax[i]] for the first
    channel [i] of largest intensity. *)
Theorem peak_velocities_max_first_peak X e :
  velax e <> [] ->
  Forall (fun r => length r = length (velax e) /\ no_nan r = true) (spectra e) ->
  exists vmax, peak_velocities X e "max" = Ok vmax
  /\ length vmax = length (spectra e)
  /\ forall k, k < length (spectra e) ->
       let r := nth k (spectra e) [] in
       exists i, i < length (velax e) /\ nth k vmax NaN = nth i (velax e) NaN
       /\ (forall j, j < length r -> F64.leb (nth j r NaN) (nth i r NaN) = true)
       /\ (forall j, j < i -> F64.ltb (nth j r NaN) (nth i r NaN) = true).
Proof.
  intros Hv Hr. rewrite Forall_forall in Hr.
  assert (Hne : forall r, In r (spectra e) -> r <> []).
  { intros r Hin ->. destruct (Hr [] Hin) as [Hl _]. destruct (velax e); [congruence|discriminate]. }
  assert (Hm : String.eqb (lower "max") "max" = true) by reflexivity.
  unfold peak_velocities. cbv zeta. rewrite Hm. unfold take_idx.
  replace (forallb _ _) with true.
  2:{ symmetry. apply forallb_forall. intros i Hi. apply in_map_iff in Hi as [r [<- Hin]].
      apply Nat.ltb_lt. rewrite <- (proj1 (Hr r Hin)). apply argmax_bound, Hne, Hin. }
  eexists. split; [reflexivity|]. split; [rewrite !length_map; reflexivity|].
  intros k Hk. cbv zeta. set (r := nth k (spectra e) []). exists (argmax r).
  assert (Hin : In r (spectra e)) by (apply nth_In, Hk).
  destruct (argmax_spec r (Hne r Hin) (proj2 (Hr r Hin))) as (H1 & H2 & H3).
  split; [rewrite <- (proj1 (Hr r Hin)); exact H1|]. split; [|split; assumption].
  rewrite (nth_indep _ NaN (nth 0 (velax e) NaN)) by (rewrite !length_map; exact Hk).
  rewrite (map_nth (fun i => nth i (velax e) NaN)).
  rewrite (nth_indep _ 0 (argmax [])) by (rewrite length_map; exact Hk).
  rewrite map_nth. reflexivity.
Qed.

(** [_get_gaussian_center] falls back to [x[argmax(y)]] when the fitted
    centre is not finite: for a NaN-free [y] as long as [x], the velocity of
    the first channel of largest intensity. *)
Theorem gaussian_center_fallback X x y :
  F64.isfinite (fst (fst (fit_gaussian X x y))) = false ->
  y <> [] -> length y = length x -> no_nan y = true ->
  exists i, get_gaussian_center X x y = Ok (nth i x NaN)
  /\ i < length x
  /\ (forall j, j < length y -> F64.leb (nth j y NaN) (nth i y NaN) = true)
  /\ (forall j, j < i -> F64.ltb (nth j y NaN) (nth i y NaN) = true).
Proof.
  intros Hf Hy Hl Hn. destruct (argmax_spec y Hy Hn) as (H1 & H2 & H3).
  exists (argmax y). split; [|split; [lia | split; assumption]].
  unfold get_gaussian_center. destruct (fit_gaussian X x y) as [[x0 dV] Tb]. simpl in Hf.
  rewrite Hf. destruct y as [|v y']; [congruence|].
  unfold take_idx. cbn [forallb]. replace (argmax (v :: y') <? length x) with true
    by (symmetry; apply Nat.ltb_lt; lia).
  reflexivity.
Qed.

Lemma get_gaussian_width_nonneg X x y :
  exists q, get_gaussian_width X x y = Fin q /\ (0 <= q)%Q.
Proof.
  unfold get_gaussian_width. destruct (fit_gaussian X x y) as [[x0 dV] Tb].
  assert (Hf : (0 <= inject_Z (10 ^ 50))%Q).
  { change 0%Q with (inject_Z 0). rewrite <- Zle_Qle. apply Z.pow_nonneg. lia. }
  destruct dV as [q| | |]; cbn [F64.isfinite F64.abs];
    [exists (Qabs q); split; [reflexivity | apply Qabs_nonneg] | (eexists; split; [reflexivity | exact Hf]) ..].
Qed.

(** [_get_gaussian_width] always returns a finite, non-negative width:
    [|dV|] of the fit, or the fill value [1e50]. *)
Theorem gaussian_width_finite_nonneg X x y :
  exists q, get_gaussian_width X x y = Fin q /\ (0 <= q)%Q.
Proof. apply get_gaussian_width_nonneg. Qed.

(** [_negative_lnlikelihood] (and so its [_hyper] and [_vrot] variants)
    always returns a finite value: minus the log-likelihood, or the penalty
    [1e15] when the likelihood is zero. *)
Theorem negative_lnlikelihood_finite X e th resample v :
  negative_lnlikelihood X e th resample = Ok v ->
  F64.isfinite v = true
  /\ (lnlikelihood X e th resample = Ok NInf -> v = penalty)
  /\ (forall q, lnlikelihood X e th resample = Ok (Fin q) -> v = Fin (- q)).
Proof.
  unfold negative_lnlikelihood. destruct (lnlikelihood X e th resample) as [l|]; simpl;
    [|discriminate]. intros H. injection H; intros <-.
  destruct l; simpl; (split; [reflexivity|]); (split; [intros E | intros q' E]);
    try discriminate; inversion E; subst; reflexivity.
Qed.

(** [_lnprobability] never returns NaN or [+inf]: a finite value or [-inf]. *)
Theorem lnprobability_finite_or_neg_inf X e th vref resample p :
  fst (lnprobability X e th vref resample) = Ok p -> F64.isfinite p = true \/ p = NInf.
Proof.
  unfold lnprobability. destruct (lnprior th vref) as [q|]; simpl; [|discriminate].
  destruct (negb (F64.isfinite q)); simpl.
  - intros H. injection H; intros <-. now right.
  - unfold lnlikelihood. destruct (masked_spectra X e th resample) as [xy|]; simpl; [|discriminate].
    destruct th as [|? [|? [|? [|? [|]]]]]; try discriminate.
    destruct (gp_compute _ _ _ _); simpl; intros H; injection H; intros <-; [|now right].
    destruct (F64.isfinite _) eqn:E; [now left|now right].
Qed.

Lemma masked_filter_pred {A} (P : A -> bool) (l : list A) x :
  In x (map fst (filter snd (combine l (map P l)))) -> P x = true.
Proof.
  induction l as [|a l IH]; simpl; [tauto|].
  destruct (P a) eqn:E; simpl; [intros [<-|H]; auto|auto].
Qed.

(** [_get_masked_spectra] keeps only points whose coordinate lies in the
    window [velax_mask] (the 30th to 70th percentile of [velax]), and returns
    as many intensities as coordinates. *)
Theorem masked_spectra_in_window X e th resample xs ys :
  masked_spectra X e th resample = Ok (xs, ys) ->
  length xs = length ys
  /\ forall x, In x xs -> F64.leb (fst (velax_mask e)) x = true /\ F64.leb x (snd (velax_mask e)) = true.
Proof.
  unfold masked_spectra. destruct th as [|vrot th']; [discriminate|].
  destruct (deprojected_spectrum X e vrot resample) as [[vx vy]|]; simpl; [|discriminate].
  set (keep := map _ vx).
  destruct (mask_idx vx keep) as [xs'|] eqn:Hx; simpl; [|discriminate].
  destruct (mask_idx vy keep) as [ys'|] eqn:Hy; simpl; [|discriminate].
  intros H. injection H; intros <- <-.
  apply mask_idx_length in Hx as Hxl. apply mask_idx_length in Hy as Hyl.
  split; [lia|].
  intros x Hin. unfold mask_idx in Hx. destruct (_ =? _); [|discriminate].
  injection Hx; intros <-. apply masked_filter_pred in Hin. apply andb_true_iff in Hin. exact Hin.
Qed.

Lemma peak_velocities_max_first_peak_witness :
  match plain_ensemble with
  | Ok e => exists vmax, peak_velocities np_ext e "max" = Ok vmax /\ length vmax = length (spectra e)
  | Err _ => False
  end.
Proof.
  destruct plain_ensemble as [e|err] eqn:He; [|vm_compute in He; discriminate].
  vm_compute in He. injection He; intros He'.
  assert (Hv : velax e <> []) by (rewrite <- He'; discriminate).
  assert (Hr : Forall (fun r => length r = length (velax e) /\ no_nan r = true) (spectra e)).
  { rewrite <- He'. repeat constructor. }
  destruct (peak_velocities_max_first_peak np_ext e Hv Hr) as (vmax & H1 & H2 & _).
  exists vmax. split; assumption.
Defined.

Lemma gaussian_center_fallback_witness :
  exists i, get_gaussian_center np_ext (fin_list [0; 1; 2]%Z) (fin_list [1; 3; 2]%Z)
              = Ok (nth i (fin_list [0; 1; 2]%Z) NaN)
  /\ i < 3.
Proof.
  destruct (gaussian_center_fallback np_ext (fin_list [0; 1; 2]%Z) (fin_list [1; 3; 2]%Z))
    as (i & H1 & H2 & _); [vm_compute; reflexivity | discriminate | reflexivity | reflexivity |].
  exists i. split; [exact H1 | exact H2].
Defined.

Lemma negative_lnlikelihood_finite_witness :
  match plain_ensemble with
  | Ok e => exists v, negative_lnlikelihood np_ext e (fin_list [1; 1; 0; 1]%Z) (Fin 1) = Ok v
                      /\ F64.isfinite v = true
  | Err _ => False
  end.
Proof.
  destruct plain_ensemble as [e|err] eqn:He; [|vm_compute in He; discriminate].
  vm_compute in He. injection He; intros He'.
  destruct (negative_lnlikelihood np_ext e (fin_list [1; 1; 0; 1]%Z) (Fin 1)) as [v|err] eqn:Hn;
    [|rewrite <- He' in Hn; vm_compute in Hn; discriminate].
  exists v. split; [reflexivity | apply (negative_lnlikelihood_finite np_ext e _ _ v Hn)].
Defined.

Lemma lnprobability_finite_or_neg_inf_witness :
  match plain_ensemble with
  | Ok e => exists p, fst (lnprobability np_ext e (fin_list [1; 1; 0; 1]%Z) (Fin 1) (Fin 1)) = Ok p
                      /\ (F64.isfinite p = true \/ p = NInf)
  | Err _ => False
  end.
Proof.
  destruct plain_ensemble as [e|err] eqn:He; [|vm_compute in He; discriminate].
  vm_compute in He. injection He; intros He'.
  destruct (fst (lnprobability np_ext e (fin_list [1; 1; 0; 1]%Z) (Fin 1) (Fin 1))) as [p|err] eqn:Hn;
    [|rewrite <- He' in Hn; vm_compute in Hn; discriminate].
  exists p. split; [reflexivity | apply (lnprobability_finite_or_neg_inf np_ext e _ _ _ p Hn)].
Defined.

Lemma masked_spectra_in_window_witness :
  match plain_ensemble with
  | Ok e => exists xs ys, masked_spectra np_ext e (fin_list [1; 1; 0; 1]%Z) (Fin 1) = Ok (xs, ys)
                          /\ length xs = length ys
  | Err _ => False
  end.
Proof.
  destruct plain_ensemble as [e|err] eqn:He; [|vm_compute in He; discriminate].
  vm_compute in He. injection He; intros He'.
  destruct (masked_spectra np_ext e (fin_list [1; 1; 0; 1]%Z) (Fin 1)) as [[xs ys]|err] eqn:Hn;
    [|rewrite <- He' in Hn; vm_compute in Hn; discriminate].
  exists xs, ys. split; [reflexivity | apply (masked_spectra_in_window np_ext e _ _ xs ys Hn)].
Defined.

(** ** Sorting, resampling and the constructor. *)

Lemma combine_map_same {A B C} (f : A -> B) (g : A -> C) (l : list A) :
  combine (map f l) (map g l) = map (fun i => (f i, g i)) l.
Proof. induction l as [|a l IH]; simpl; [reflexivity|]. now rewrite IH. Qed.

Lemma combine_as_map {A B} (l1 : list A) (l2 : list B) d1 d2 :
  length l1 = length l2 ->
  combine l1 l2 = map (fun i => (nth i l1 d1, nth i l2 d2)) (seq 0 (length l1)).
Proof.
  intros Hl. apply nth_ext with (d := (d1, d2)) (d' := (d1, d2)).
  - rewrite length_combine, length_map, length_seq. lia.
  - intros k Hk. rewrite length_combine in Hk.
    rewrite combine_nth by exact Hl. rewrite nth_map_seq by lia. reflexivity.
Qed.

Lemma perm_seq_bound (idx : list nat) n i : Permutation idx (seq 0 n) -> In i idx -> i < n.
Proof.
  intros Hp Hi. apply (Permutation_in _ Hp), in_seq in Hi. lia.
Qed.

Lemma take_idx_ok {A} (d : A) l idxs :
  (forall i, In i idxs -> i < length l) -> take_idx d l idxs = Ok (map (fun i => nth i l d) idxs).
Proof.
  intros H. unfold take_idx. replace (forallb _ idxs) with true; [reflexivity|].
  symmetry. apply forallb_forall. intros i Hi. apply Nat.ltb_lt, H, Hi.
Qed.

Lemma order_spectra_sorted_aux X e vpnts spnts :
  argsort_sorts X vpnts -> length spnts = length vpnts ->
  exists vs ss, order_spectra X e vpnts (Some spnts) = Ok (vs, ss)
  /\ Permutation (combine vs ss) (combine vpnts spnts)
  /\ Sorted (fun a b => F64.np_less b a = false) vs.
Proof.
  intros [Hp Hs] Hl. unfold order_spectra.
  rewrite Hl, Nat.eqb_refl. cbn [negb].
  rewrite (take_idx_ok NaN vpnts) by (intros i Hi; exact (perm_seq_bound _ _ _ Hp Hi)).
  rewrite (take_idx_ok NaN spnts) by (intros i Hi; rewrite Hl; exact (perm_seq_bound _ _ _ Hp Hi)).
  cbn [bind]. eexists _, _. split; [reflexivity|]. split.
  - rewrite combine_map_same, (combine_as_map vpnts spnts NaN NaN) by congruence.
    apply Permutation_map, Hp.
  - refine (Sorted_map_in _ _ _ _ _ Hs). intros i j _ _ H. exact H.
Qed.

(** [_order_spectra(vpnts, spnts)] with arrays of one length, when numpy's
    [argsort] meets its contract on [vpnts]: the coordinates come out in
    ascending numpy order, and each intensity stays with its coordinate (the
    output pairs are a permutation of the input pairs). *)
Theorem order_spectra_sorted_pairs X e vpnts spnts :
  argsort_sorts X vpnts -> length spnts = length vpnts ->
  exists vs ss, order_spectra X e vpnts (Some spnts) = Ok (vs, ss)
  /\ Permutation (combine vs ss) (combine vpnts spnts)
  /\ Sorted (fun a b => F64.np_less b a = false) vs.
Proof. apply order_spectra_sorted_aux. Qed.

(** [deprojected_spectrum(vrot, resample=False)], when the cached
    [spectra_flat] has one intensity per shifted point and numpy's [argsort]
    meets its contract: the shifted points [velax[c] - vrot * cos(theta[a])]
    sorted ascending, each paired with the entry of [spectra_flat] at its
    flat position (the output pairs are a permutation of
    [zip(shifted points, spectra_flat)]). *)
Theorem deprojected_spectrum_unbinned X e vrot :
  argsort_sorts X (shifted_points X e vrot) ->
  length (spectra_flat e) = length (shifted_points X e vrot) ->
  exists xs ys, deprojected_spectrum X e vrot (Fin 0) = Ok (xs, ys)
  /\ Permutation (combine xs ys) (combine (shifted_points X e vrot) (spectra_flat e))
  /\ Sorted (fun a b => F64.np_less b a = false) xs.
Proof.
  intros Ha Hl. destruct (order_spectra_sorted_aux X e _ _ Ha Hl) as (xs & ys & H1 & H2 & H3).
  exists xs, ys. split; [|split; assumption].
  unfold deprojected_spectrum. change (order_spectra X e (shifted_points X e vrot) None)
    with (order_spectra X e (shifted_points X e vrot) (Some (spectra_flat e))).
  rewrite H1. reflexivity.
Qed.


Lemma init_fields X sp th vel re so e :
  ensemble_init X sp th vel re so = Ok e ->
  theta_deg e = map (fun t => F64.pymod (degrees t) 360) th
  /\ velax e = vel /\ spectra_flat e = concat sp
  /\ (exists ts, (if so then let idxs := argsort X th in
                    let* sp' := take_idx [] sp idxs in
                    let* th' := take_idx NaN th idxs in Ok (th', sp')
                  else Ok (th, sp)) = Ok ts
       /\ (if re then let idxs := nonempty_mask sp in
             let* th' := mask_idx (fst ts) idxs in
             let* sp' := mask_idx (snd ts) idxs in Ok (th', sp')
           else Ok ts) = Ok (theta e, spectra e)).
Proof.
  unfold ensemble_init.
  set (sorted := if so then _ else _).
  destruct sorted as [ts|] eqn:Hs; cbn [bind]; [|discriminate].
  set (masked := if re then _ else _).
  destruct masked as [ts'|] eqn:Hm; cbn [bind]; [|discriminate].
  destruct (length (fst ts') <? 1); [discriminate|].
  destruct vel as [|v0 [|v1 vs]]; try discriminate.
  intros H; inversion H; subst; cbn.
  split; [reflexivity|]. split; [reflexivity|]. split; [reflexivity|].
  exists ts. split; [reflexivity|]. destruct ts'. exact Hm.
Qed.

(** [self.theta_deg] is computed from the angles as given, before sorting
    and filtering: one entry per input angle, in input order; a finite angle
    [a] (radians) becomes [a * 180 / pi] reduced into [[0, 360)], a
    non-finite one NaN. *)
Theorem theta_deg_input_order X sp th vel re so e :
  ensemble_init X sp th vel re so = Ok e ->
  length (theta_deg e) = length th
  /\ forall k, k < length th ->
       match nth k th NaN with
       | Fin a => exists q z, nth k (theta_deg e) NaN = Fin q /\ (0 <= q < 360)%Q
                              /\ (q == a * (180 / (884279719003555 # 281474976710656)) - 360 * inject_Z z)%Q
       | _ => nth k (theta_deg e) NaN = NaN
       end.
Proof.
  intros H. destruct (init_fields X _ _ _ _ _ _ H) as (Hd & _). rewrite Hd.
  split; [apply length_map|]. intros k Hk.
  replace (nth k (map (fun t => F64.pymod (degrees t) 360) th) NaN)
    with (F64.pymod (degrees (nth k th NaN)) 360).
  2:{ rewrite (nth_indep (map (fun t => F64.pymod (degrees t) 360) th) NaN (F64.pymod (degrees NaN) 360))
        by (rewrite length_map; exact Hk).
      symmetry. apply (map_nth (fun t => F64.pymod (degrees t) 360)). }
  destruct (nth k th NaN) as [a| | |]; try reflexivity.
  unfold degrees, pi_f64. cbn [F64.div F64.mul F64.pymod].
  replace (Qeq_bool (884279719003555 # 281474976710656) 0) with false by reflexivity.
  set (x := (a * (180 / (884279719003555 # 281474976710656)))%Q).
  exists (x - 360 * inject_Z (Qfloor (x / 360)))%Q, (Qfloor (x / 360)).
  split; [reflexivity|]. split; [|reflexivity].
  pose proof (Qfloor_le (x / 360)) as H1. pose proof (Qlt_floor (x / 360)) as H2.
  rewrite inject_Z_plus in H2. change (inject_Z 1) with 1%Q in H2.
  assert (E : (x / 360 * 360 == x)%Q) by (field; discriminate).
  split; nra.
Qed.

Lemma filter_combine_all_false {A} (l : list A) (m : list bool) :
  (forall b, In b m -> b = false) -> filter snd (combine l m) = [].
Proof.
  revert m. induction l as [|a l IH]; intros [|b m] H; simpl; try reflexivity.
  rewrite (H b (or_introl eq_refl)). apply IH. intros c Hc. apply H. right. exact Hc.
Qed.

(** The constructor with [remove_empty=True] raises "No finite spectra"
    when no row has a positive intensity sum (a NaN sum included), for
    angles and rows of one count, sorting off or numpy's [argsort] meeting
    its contract. *)
Theorem init_no_positive_row_error X sp th vel so :
  length th = length sp -> (so = false \/ argsort_sorts X th) ->
  Forall (fun r => F64.ltb (Fin 0) (np_sum r) = false) sp ->
  ensemble_init X sp th vel true so = Err (ValueError "No finite spectra. Check for NaNs.").
Proof.
  intros Hl Hso Hr. rewrite Forall_forall in Hr.
  assert (Hm : forall b, In b (nonempty_mask sp) -> b = false).
  { intros b Hb. unfold nonempty_mask in Hb. apply in_map_iff in Hb as [r [<- Hin]]. apply Hr, Hin. }
  assert (Hmlen : length (nonempty_mask sp) = length sp) by apply length_map.
  unfold ensemble_init. destruct so.
  - destruct Hso as [Hso|[Hp _]]; [discriminate|]. cbv zeta.
    rewrite (take_idx_ok [] sp) by (intros i Hi; rewrite <- Hl; exact (perm_seq_bound _ _ _ Hp Hi)).
    rewrite (take_idx_ok NaN th) by (intros i Hi; exact (perm_seq_bound _ _ _ Hp Hi)).
    cbn [bind fst snd]. unfold mask_idx.
    rewrite !length_map, (Permutation_length Hp), length_seq, Hmlen, Hl, Nat.eqb_refl.
    cbn [bind fst]. rewrite filter_combine_all_false by exact Hm. reflexivity.
  - cbn [bind fst snd]. unfold mask_idx. rewrite Hl, Hmlen, Nat.eqb_refl. cbn [bind fst].
    rewrite filter_combine_all_false by exact Hm. reflexivity.
Qed.

(** The constructor never returns an instance for a velocity axis of fewer
    than two channels: [np.diff(velax)[0]] raises (or "No finite spectra"
    is raised first). *)
Theorem init_needs_two_channels X sp th vel re so :
  length vel < 2 -> forall e, ensemble_init X sp th vel re so <> Ok e.
Proof.
  intros Hv e. unfold ensemble_init.
  set (sorted := if so then _ else _).
  destruct sorted as [ts|]; cbn [bind]; [|discriminate].
  set (masked := if re then _ else _).
  destruct masked as [ts'|]; cbn [bind]; [|discriminate].
  destruct (length (fst ts') <? 1); [discriminate|].
  destruct vel as [|v0 [|v1 vs]]; try discriminate. simpl in Hv. lia.
Qed.

Lemma combine_mask {A B} (l1 : list A) (l2 : list B) (m : list bool) :
  length l1 = length l2 ->
  combine (map fst (filter snd (combine l1 m))) (map fst (filter snd (combine l2 m)))
  = map fst (filter snd (combine (combine l1 l2) m)).
Proof.
  revert l2 m. induction l1 as [|a l1 IH]; intros [|b l2] [|c m] H; simpl in *;
    try discriminate; try reflexivity.
  destruct c; simpl; [f_equal|]; apply IH; lia.
Qed.

(** Whatever the flags, every stored pair [(self.theta[k], self.spectra[k])]
    is a pair [(theta[i], spectra[i])] of the input (angles and rows of one
    count): sorting and filtering move and drop angles and rows together. *)
Theorem init_keeps_pairs X sp th vel re so e :
  length th = length sp -> ensemble_init X sp th vel re so = Ok e ->
  length (theta e) = length (spectra e)
  /\ forall p, In p (combine (theta e) (spectra e)) -> In p (combine th sp).
Proof.
  intros Hl H. destruct (init_fields X _ _ _ _ _ _ H) as (_ & _ & _ & ts & Hs & Hm).
  assert (Hts : length (fst ts) = length (snd ts)
                /\ forall p, In p (combine (fst ts) (snd ts)) -> In p (combine th sp)).
  { destruct so.
    - cbv zeta in Hs.
      destruct (take_idx [] sp _) as [sp'|] eqn:E1; cbn [bind] in Hs; [|discriminate].
      destruct (take_idx NaN th _) as [th'|] eqn:E2; cbn [bind] in Hs; [|discriminate].
      injection Hs; intros <-. cbn [fst snd].
      apply take_idx_map in E1 as [-> _]. apply take_idx_map in E2 as [-> Hr].
      rewrite !length_map. split; [reflexivity|].
      rewrite combine_map_same. intros p Hp. apply in_map_iff in Hp as [i [<- Hi]].
      rewrite <- combine_nth by exact Hl. apply nth_In. rewrite length_combine.
      specialize (Hr i Hi). lia.
    - injection Hs; intros <-. cbn [fst snd]. split; [exact Hl|tauto]. }
  destruct Hts as [Htl Hin]. destruct re.
  - cbv zeta in Hm.
    destruct (mask_idx (fst ts) _) as [th'|] eqn:E1; cbn [bind] in Hm; [|discriminate].
    destruct (mask_idx (snd ts) _) as [sp'|] eqn:E2; cbn [bind] in Hm; [|discriminate].
    injection Hm; intros <- <-.
    pose proof (mask_idx_length _ _ _ E1) as [_ L1]. pose proof (mask_idx_length _ _ _ E2) as [_ L2].
    split; [congruence|].
    unfold mask_idx in E1, E2. destruct (_ =? _); [|discriminate]. destruct (_ =? _); [|discriminate].
    injection E1; intros <-. injection E2; intros <-.
    rewrite combine_mask by exact Htl. intros p Hp. apply Hin. exact (masked_in _ _ _ Hp).
  - injection Hm; intros Hm'. rewrite Hm' in Htl, Hin. cbn [fst snd] in Htl, Hin. split; assumption.
Qed.

Lemma order_spectra_sorted_pairs_witness :
  exists vs ss,
    order_spectra np_ext (mkEnsemble [] [] [] [] [] NaN (NaN, NaN) (NaN, NaN))
      (fin_list [1; 0]%Z) (Some (fin_list [5; 6]%Z)) = Ok (vs, ss)
    /\ Permutation (combine vs ss) (combine (fin_list [1; 0]%Z) (fin_list [5; 6]%Z)).
Proof.
  assert (Ha : argsort_sorts np_ext (fin_list [1; 0]%Z)).
  { split; vm_compute; [apply perm_swap | repeat constructor]. }
  destruct (order_spectra_sorted_pairs np_ext (mkEnsemble [] [] [] [] [] NaN (NaN, NaN) (NaN, NaN))
              (fin_list [1; 0]%Z) (fin_list [5; 6]%Z) Ha eq_refl) as (vs & ss & H1 & H2 & _).
  exists vs, ss. split; assumption.
Defined.

Lemma deprojected_spectrum_unbinned_witness :
  match plain_ensemble with
  | Ok e => exists xs ys, deprojected_spectrum np_ext e (Fin 0) (Fin 0) = Ok (xs, ys)
                          /\ Sorted (fun a b => F64.np_less b a = false) xs
  | Err _ => False
  end.
Proof.
  destruct plain_ensemble as [e|err] eqn:He; [|vm_compute in He; discriminate].
  vm_compute in He. injection He; intros He'.
  assert (Ha : argsort_sorts np_ext (shifted_points np_ext e (Fin 0))).
  { rewrite <- He'. split; vm_compute; [apply perm_skip, perm_swap | repeat constructor]. }
  assert (Hl : length (spectra_flat e) = length (shifted_points np_ext e (Fin 0)))
    by (rewrite <- He'; reflexivity).
  destruct (deprojected_spectrum_unbinned np_ext e (Fin 0) Ha Hl) as (xs & ys & H1 & _ & H3).
  exists xs, ys. split; assumption.
Defined.


Lemma theta_deg_input_order_witness :
  match plain_ensemble with
  | Ok e => length (theta_deg e) = 2
  | Err _ => False
  end.
Proof.
  destruct plain_ensemble as [e|err] eqn:He; [|vm_compute in He; discriminate].
  destruct (theta_deg_input_order np_ext [fin_list [1; 2]%Z; fin_list [3; 4]%Z] (fin_list [0; 1]%Z)
              (fin_list [0; 1]%Z) true true e He) as [H _].
  exact H.
Defined.

Lemma init_no_positive_row_error_witness :
  ensemble_init np_ext [fin_list [-1; 0]%Z; fin_list [0; 0]%Z] (fin_list [1; 0]%Z)
    (fin_list [0; 1]%Z) true true = Err (ValueError "No finite spectra. Check for NaNs.").
Proof.
  apply init_no_positive_row_error; [reflexivity | right | repeat constructor].
  split; vm_compute; [apply perm_swap | repeat constructor].
Defined.

Lemma init_needs_two_channels_witness :
  ensemble_init np_ext [fin_list [1; 2]%Z] (fin_list [0]%Z) [Fin 0] true true
  <> Ok (mkEnsemble [] [] [] [] [] NaN (NaN, NaN) (NaN, NaN)).
Proof. apply init_needs_two_channels. simpl. lia. Defined.

Lemma init_keeps_pairs_witness :
  match plain_ensemble with
  | Ok e => length (theta e) = length (spectra e)
  | Err _ => False
  end.
Proof.
  destruct plain_ensemble as [e|err] eqn:He; [|vm_compute in He; discriminate].
  destruct (init_keeps_pairs np_ext [fin_list [1; 2]%Z; fin_list [3; 4]%Z] (fin_list [0; 1]%Z)
              (fin_list [0; 1]%Z) true true e eq_refl He) as [H _].
  exact H.
Defined.

(** ** Walker start positions and the optimisation loop. *)

Lemma nth_combine_lt {A B} (l1 : list A) (l2 : list B) j d1 d2 :
  j < length l1 -> j < length l2 -> nth j (combine l1 l2) (d1, d2) = (nth j l1 d1, nth j l2 d2).
Proof.
  revert l2 j. induction l1 as [|a l1 IH]; intros [|b l2] [|j] H1 H2; simpl in *; try lia;
    [reflexivity|]. apply IH; lia.
Qed.

Lemma nth_map_lt {A B} (f : A -> B) l k d d' : k < length l -> nth k (map f l) d' = f (nth k l d).
Proof.
  intros Hk. rewrite (nth_indep _ d' (f d)) by (rewrite length_map; exact Hk). apply map_nth.
Qed.

(** [_randomize_p0]: one row per row of the normal deviates [dev]; for a
    finite parameter [p], deviate [d] and [scatter], the entry is
    [p * (1 + scatter * d)], and for [p = 0] it is [scatter * d] (the
    [1.0]-substitution undone), so zero parameters are scattered additively. *)
Theorem randomize_p0_entries p0 dev scatter :
  length (randomize_p0 p0 dev scatter) = length dev
  /\ forall k j a d s,
       k < length dev -> j < length p0 -> j < length (nth k dev []) ->
       nth j p0 NaN = Fin a -> nth j (nth k dev []) NaN = Fin d -> scatter = Fin s ->
       exists q, nth j (nth k (randomize_p0 p0 dev scatter) []) NaN = Fin q
       /\ (q == if Qeq_bool a 0 then s * d else a * (1 + s * d))%Q.
Proof.
  unfold randomize_p0. split; [apply length_map|].
  intros k j a d s Hk Hj Hjr Ha Hd Hs. subst scatter.
  rewrite (nth_map_lt _ dev k [] []) by exact Hk.
  rewrite (nth_map_lt _ (combine p0 (nth k dev [])) j (NaN, NaN) NaN)
    by (rewrite length_combine; lia).
  rewrite nth_combine_lt by assumption. rewrite Ha, Hd.
  cbn [F64.eqb F64.mul F64.add F64.sub F64.neg].
  destruct (Qeq_bool a 0); cbn [F64.mul F64.add F64.sub F64.neg];
    (eexists; split; [reflexivity | ring]).
Qed.

Section IdleMinimizer.
Variable X : Externals.
Variable e : ensemble.
Variable resample : F64.
Hypothesis Hmin : forall f x0 b, exists x, minimize X f x0 b = Ok (x, false).

Lemma hyper_step_idle bounds p0 nl :
  hyper_step X e resample bounds 0 nl [p0] = Ok ((0, nl), [p0]).
Proof.
  unfold hyper_step, bindS, load, lift, ret. cbn [length Nat.ltb Nat.leb nth].
  match goal with |- context [minimize X ?f ?x ?b] => destruct (Hmin f x b) as [x' Hx]; rewrite Hx end.
  reflexivity.
Qed.

Lemma vrot_step_idle bounds p0 nl :
  vrot_step X e resample bounds 0 nl [p0] = Ok ((0, nl), [p0]).
Proof.
  unfold vrot_step, bindS, load, lift, ret. cbn [length Nat.ltb Nat.leb nth].
  match goal with |- context [minimize X ?f ?x ?b] => destruct (Hmin f x b) as [x' Hx]; rewrite Hx end.
  reflexivity.
Qed.

Lemma joint_step_idle bounds p0 nl :
  joint_step X e resample bounds 0 nl [p0] = Ok ((0, nl), [p0]).
Proof.
  unfold joint_step, bindS, load, lift, ret. cbn [length Nat.ltb Nat.leb nth].
  match goal with |- context [minimize X ?f ?x ?b] => destruct (Hmin f x b) as [x' Hx]; rewrite Hx end.
  reflexivity.
Qed.

Lemma optimize_loop_idle n p0 nl :
  optimize_loop X e resample n 0 nl [p0] = Ok ((0, nl), [p0]).
Proof.
  induction n as [|n IH]; [reflexivity|].
  cbn [optimize_loop]. unfold bindS at 1. unfold load at 1. cbn [length Nat.ltb Nat.leb nth].
  unfold bindS at 1. rewrite hyper_step_idle. cbn [fst snd].
  unfold bindS at 1. rewrite vrot_step_idle. cbn [fst snd].
  unfold bindS at 1. rewrite joint_step_idle. cbn [fst snd]. exact IH.
Qed.
End IdleMinimizer.

(** [_optimize_p0] when [minimize] never reports success: for any number
    of rounds, the starting vector comes back unchanged and the caller's
    array is not written to. *)
Theorem optimize_p0_idle_minimizer X e p0 N resample v :
  (forall f x0 b, exists x, minimize X f x0 b = Ok (x, false)) ->
  negative_lnlikelihood X e p0 resample = Ok v ->
  optimize_p0_heap X e p0 N resample = Ok (p0, [p0]).
Proof.
  intros Hmin Hv. unfold optimize_p0_heap.
  unfold bindS at 1. unfold lift at 1. rewrite Hv.
  unfold bindS at 1. rewrite (optimize_loop_idle X e resample Hmin). reflexivity.
Qed.

Lemma randomize_p0_entries_witness :
  exists q, nth 1 (nth 0 (randomize_p0 (fin_list [2; 0]%Z) [fin_list [1; 3]%Z] (Fin (1 # 10))) []) NaN
            = Fin q /\ (q == 3 # 10)%Q.
Proof.
  destruct (randomize_p0_entries (fin_list [2; 0]%Z) [fin_list [1; 3]%Z] (Fin (1 # 10))) as [_ H].
  destruct (H 0 1 0%Q 3%Q (1 # 10)%Q) as (q & Hq & Hv);
    [simpl; lia | simpl; lia | simpl; lia | reflexivity | reflexivity | reflexivity |].
  exists q. split; [exact Hq|]. rewrite Hv. reflexivity.
Defined.

Lemma optimize_p0_idle_minimizer_witness :
  match plain_ensemble with
  | Ok e => optimize_p0_heap np_ext e (fin_list [1; 1; 0; 1]%Z) 2 (Fin 1)
            = Ok (fin_list [1; 1; 0; 1]%Z, [fin_list [1; 1; 0; 1]%Z])
  | Err _ => False
  end.
Proof.
  destruct plain_ensemble as [e|err] eqn:He; [|vm_compute in He; discriminate].
  vm_compute in He. injection He; intros He'.
  destruct (negative_lnlikelihood np_ext e (fin_list [1; 1; 0; 1]%Z) (Fin 1)) as [v|err] eqn:Hn;
    [|rewrite <- He' in Hn; vm_compute in Hn; discriminate].
  apply (optimize_p0_idle_minimizer np_ext e _ 2 (Fin 1) v); [|exact Hn].
  intros f x0 b. exists x0. reflexivity.
Defined.

(** ** Line width, first guesses and line profiles. *)

Lemma length_removelast_pred {A} (l : list A) : length (removelast l) = length l - 1.
Proof.
  induction l as [|a l IH]; [reflexivity|]. destruct l as [|b l]; [reflexivity|].
  change (length (a :: removelast (b :: l)) = length (a :: b :: l) - 1). simpl in *. lia.
Qed.

Lemma order_spectra_lengths X e v s o :
  order_spectra X e v s = Ok o -> length (fst o) = length (snd o).
Proof.
  unfold order_spectra. destruct (negb _); [discriminate|].
  destruct (take_idx NaN v _) as [vs|] eqn:E1; cbn [bind]; [|discriminate].
  destruct (take_idx NaN (match s with Some s0 => s0 | None => spectra_flat e end) (argsort X v))
    as [ss|] eqn:E2; cbn [bind]; [|discriminate].
  intros H. injection H; intros <-. cbn [fst snd].
  rewrite (take_idx_length _ _ _ _ E1), (take_idx_length _ _ _ _ E2). reflexivity.
Qed.

Lemma resample_spectra_lengths e v s r o :
  length v = length s -> resample_spectra e v s r = Ok o -> length (fst o) = length (snd o).
Proof.
  intros Hl. unfold resample_spectra. destruct (F64.eqb r (Fin 0)).
  - intros H. injection H; intros <-. exact Hl.
  - destruct (py_int _) as [n|]; cbn [bind]; [|discriminate].
    unfold binned_statistic_mean. destruct (negb (forallb _ _)); [discriminate|].
    rewrite Hl, Nat.eqb_refl. cbn [negb]. destruct (F64.ltb _ _); [discriminate|].
    destruct (if F64.eqb _ _ then _ else _) as [lo hi].
    destruct (Z.le_gt_cases 1 n) as [Hn|Hn].
    + rewrite np_linspace_ok by exact Hn. cbn [bind].
      destruct (np_amin _) as [dmin|]; cbn [bind]; [|discriminate].
      destruct (edge_decimal dmin); cbn [bind]; [|discriminate].
      intros H. injection H; intros <-. cbn [fst snd].
      unfold midpoints, linspace. rewrite length_map, length_combine, length_tl,
        length_removelast_pred, !length_map, !length_seq. lia.
    + unfold np_linspace. destruct (n + 1 <? 0)%Z; [discriminate|].
      assert (Z.to_nat (n + 1) = 0 \/ Z.to_nat (n + 1) = 1) as [-> | ->] by lia; cbn; discriminate.
Qed.

Lemma deprojected_spectrum_lengths X e vrot r xy :
  deprojected_spectrum X e vrot r = Ok xy -> length (fst xy) = length (snd xy).
Proof.
  unfold deprojected_spectrum. destruct (order_spectra X e _ None) as [o|] eqn:E; cbn [bind];
    [|discriminate].
  apply resample_spectra_lengths, (order_spectra_lengths _ _ _ _ _ E).
Qed.

(** [get_deprojected_width], the objective [get_vrot_dV] minimises, never
    raises once [deprojected_spectrum] has returned (on a non-empty velocity
    axis), and its value is a finite, non-negative width. *)
Theorem deprojected_width_finite X e vrot resample xy :
  deprojected_spectrum X e vrot resample = Ok xy -> velax e <> [] ->
  exists q, get_deprojected_width X e vrot resample = Ok (Fin q) /\ (0 <= q)%Q.
Proof.
  intros Hd Hv. pose proof (deprojected_spectrum_lengths _ _ _ _ _ Hd) as Hl.
  unfold get_deprojected_width. rewrite Hd. cbn [bind].
  destruct (velax e) as [|v0 vs]; [congruence|].
  unfold mask_idx at 1. rewrite length_map, Nat.eqb_refl. cbn [bind].
  unfold mask_idx. rewrite length_map, Hl, Nat.eqb_refl. cbn [bind].
  destruct (get_gaussian_width_nonneg X
              (map fst (filter snd (combine (fst xy) (map (fun x => F64.leb v0 x && F64.leb x (last_or (v0 :: vs))) (fst xy)))))
              (map fst (filter snd (combine (snd xy) (map (fun x => F64.leb v0 x && F64.leb x (last_or (v0 :: vs))) (fst xy))))))
    as (q & Hq & Hq0).
  exists q. rewrite Hq. split; [reflexivity | exact Hq0].
Qed.

Lemma argmin_from_spec L : forall i best,
  no_nan L = true -> best < i -> i <= length L ->
  (forall j, j < i -> F64.leb (nth best L NaN) (nth j L NaN) = true) ->
  (forall j, j < best -> F64.ltb (nth best L NaN) (nth j L NaN) = true) ->
  let r := argmin_from (skipn i L) i best (nth best L NaN) in
  r < length L
  /\ (forall j, j < length L -> F64.leb (nth r L NaN) (nth j L NaN) = true)
  /\ (forall j, j < r -> F64.ltb (nth r L NaN) (nth j L NaN) = true).
Proof.
  intros i best Hn. remember (length L - i) as m eqn:Hm. revert i best Hm.
  induction m as [|m IH]; intros i best Hm Hb Hi Hle Hlt r.
  - assert (i = length L) as -> by lia. subst r. rewrite skipn_all. simpl.
    split; [lia|]. split; assumption.
  - assert (Hi' : i < length L) by lia.
    assert (Hs : skipn i L = nth i L NaN :: skipn (S i) L).
    { clear -Hi'. revert i Hi'. induction L as [|a L IHL]; intros [|i] H; simpl in *; try lia;
        [reflexivity|]. apply IHL. lia. }
    subst r. rewrite Hs. cbn [argmin_from].
    rewrite (no_nan_nth L best Hn ltac:(lia)), (no_nan_nth L i Hn Hi'). cbn [orb negb].
    destruct (F64.ltb (nth i L NaN) (nth best L NaN)) eqn:E.
    + apply (IH (S i) i); try lia.
      * intros j Hj. destruct (Nat.eq_dec j i) as [->|Hne].
        -- apply F64_leb_refl, no_nan_nth; assumption.
        -- apply F64_ltb_leb. apply (F64_ltb_leb_trans _ (nth best L NaN)); [exact E|apply Hle; lia].
      * intros j Hj. apply (F64_ltb_leb_trans _ (nth best L NaN)); [exact E|apply Hle; lia].
    + apply (IH (S i) best); try lia; [|exact Hlt].
      intros j Hj. destruct (Nat.eq_dec j i) as [->|Hne]; [|apply Hle; lia].
      apply F64_not_ltb_leb; [apply no_nan_nth; [exact Hn|lia] .. | exact E].
Qed.

(** [np.argmin] of a non-empty NaN-free array is the first index of the
    smallest value. *)
Lemma argmin_spec L :
  L <> [] -> no_nan L = true ->
  argmin L < length L
  /\ (forall j, j < length L -> F64.leb (nth (argmin L) L NaN) (nth j L NaN) = true).
Proof.
  intros Hne Hn. destruct L as [|v L']; [congruence|].
  pose proof (argmin_from_spec (v :: L') 1 0 Hn ltac:(lia) ltac:(simpl; lia)) as H.
  cbn zeta in H. simpl skipn in H. simpl nth in H. unfold argmin.
  destruct H as (H1 & H2 & _).
  - intros j Hj. assert (j = 0) as -> by lia. apply F64_leb_refl.
    apply (no_nan_nth (v :: L') 0 Hn). simpl; lia.
  - intros j Hj; lia.
  - split; assumption.
Qed.

Lemma fold_add_bounds lo hi (l : list F64) : forall acc,
  (forall v, In v l -> exists q, v = Fin q /\ (lo <= q <= hi)%Q) ->
  exists s, fold_left F64.add l (Fin acc) = Fin s
  /\ (acc + inject_Z (Z.of_nat (length l)) * lo <= s <= acc + inject_Z (Z.of_nat (length l)) * hi)%Q.
Proof.
  induction l as [|v l IH]; intros acc H.
  - exists acc. cbn [fold_left length]. change (inject_Z (Z.of_nat 0)) with 0%Q.
    split; [reflexivity|]. split; lra.
  - destruct (H v (or_introl eq_refl)) as (q & -> & Hq).
    destruct (IH (acc + q)%Q) as (s & Hs & Hb); [intros w Hw; apply H; right; exact Hw|].
    exists s. cbn [fold_left F64.add]. split; [exact Hs|].
    cbn [length]. rewrite Nat2Z.inj_succ, <- Z.add_1_r, inject_Z_plus. change (inject_Z 1) with 1%Q.
    split; nra.
Qed.

Lemma finite_list_bounds (l : list F64) :
  l <> [] -> Forall (fun v => F64.isfinite v = true) l ->
  exists lo hi, np_min l = Fin lo /\ np_max l = Fin hi /\ In (Fin lo) l /\ In (Fin hi) l
  /\ (forall v, In v l -> exists q, v = Fin q /\ (lo <= q <= hi)%Q).
Proof.
  intros Hne Hf. rewrite Forall_forall in Hf.
  assert (Hn : no_nan l = true).
  { unfold no_nan. apply forallb_forall. intros v Hv. specialize (Hf v Hv). destruct v; easy. }
  destruct (argmin_spec l Hne Hn) as [Hmin1 Hmin2].
  destruct (argmax_spec l Hne Hn) as (Hmax1 & Hmax2 & _).
  unfold np_min, np_max.
  pose proof (Hf _ (nth_In l NaN Hmin1)) as Flo. pose proof (Hf _ (nth_In l NaN Hmax1)) as Fhi.
  destruct (nth (argmin l) l NaN) as [lo| | |] eqn:Elo; try discriminate.
  destruct (nth (argmax l) l NaN) as [hi| | |] eqn:Ehi; try discriminate.
  exists lo, hi. split; [reflexivity|]. split; [reflexivity|].
  split; [rewrite <- Elo; apply nth_In, Hmin1|]. split; [rewrite <- Ehi; apply nth_In, Hmax1|].
  intros v Hv. destruct (In_nth l v NaN Hv) as (j & Hj & Ev).
  specialize (Hmin2 j Hj). specialize (Hmax2 j Hj). rewrite Ev in Hmin2, Hmax2.
  pose proof (Hf v Hv) as Fv. destruct v as [q| | |]; try discriminate.
  exists q. split; [reflexivity|]. cbn in Hmin2, Hmax2. apply Qle_bool_iff in Hmin2, Hmax2. split; assumption.
Qed.

(** [guess_parameters] without a fit (or when the sinusoid fit raises): for
    finite peak velocities it returns [vrot = (max - min) / 2], a
    non-negative half-range, and [vlsr] their mean, which lies between the
    smallest and the largest peak. *)
Theorem guess_parameters_unfitted X sho e fit fix_theta method vpeaks :
  peak_velocities X e method = Ok vpeaks -> vpeaks <> [] ->
  Forall (fun v => F64.isfinite v = true) vpeaks ->
  (fit = false \/ forall p, sho fix_theta (theta e) vpeaks p = None) ->
  exists r l lo hi, guess_parameters X sho e fit fix_theta method = Ok [Fin r; Fin l]
    /\ In (Fin lo) vpeaks /\ In (Fin hi) vpeaks
    /\ (forall v, In v vpeaks -> exists q, v = Fin q /\ (lo <= q <= hi)%Q)
    /\ (r == (hi - lo) / 2)%Q /\ (0 <= r)%Q /\ (lo <= l <= hi)%Q.
Proof.
  intros Hp Hne Hf Hfit.
  destruct (finite_list_bounds vpeaks Hne Hf) as (lo & hi & Hlo & Hhi & Ilo & Ihi & Hb).
  destruct (fold_add_bounds lo hi vpeaks 0 Hb) as (s & Hs & Hsb).
  set (N := inject_Z (Z.of_nat (length vpeaks))) in *.
  assert (HN : (0 < N)%Q).
  { subst N. destruct vpeaks; [congruence|]. change 0%Q with (inject_Z 0). rewrite <- Zlt_Qlt.
    simpl length. lia. }
  assert (HN0 : Qeq_bool N 0 = false).
  { apply not_true_iff_false. intros E. apply Qeq_bool_eq in E. rewrite E in HN. lra. }
  assert (Hlohi : (lo <= hi)%Q) by (destruct (Hb _ Ilo) as (q & Eq & Hq); injection Eq; intros <-; lra).
  assert (Hmean : np_mean vpeaks = Fin (s / N)).
  { unfold np_mean, np_sum, of_nat. rewrite Hs. fold N. cbn [F64.div]. rewrite HN0. reflexivity. }
  assert (Hres : guess_parameters X sho e fit fix_theta method
                 = Ok [Fin ((1#2) * (hi + - lo)); Fin (s / N)]).
  { unfold guess_parameters. rewrite Hp. cbn [bind].
    destruct vpeaks as [|v vs]; [congruence|]. rewrite Hlo, Hhi, Hmean. cbn [F64.sub F64.neg F64.add F64.mul].
    destruct Hfit as [-> | Hnone]; [reflexivity|]. destruct fit; [|reflexivity]. cbn [negb].
    rewrite Hnone. reflexivity. }
  exists ((1#2) * (hi + - lo))%Q, (s / N)%Q, lo, hi. split; [exact Hres|].
  split; [exact Ilo|]. split; [exact Ihi|]. split; [exact Hb|].
  split; [field|]. split; [lra|].
  split.
  - apply Qle_shift_div_l; [exact HN|]. lra.
  - apply Qle_shift_div_r; [exact HN|]. lra.
Qed.

Lemma repeat_nan_map (f : F64 -> F64) (x : list F64) :
  (forall v, f v = NaN) -> map f x = repeat NaN (length x).
Proof. intros H. induction x as [|v x IH]; simpl; [reflexivity|]. now rewrite H, IH. Qed.

(** [_thickline] raises for [tau <= 0], [-inf] included, but its guard
    [tau <= 0.0] is false for a NaN [tau], which goes through and (with
    [exp(nan) = nan]) gives a profile of NaNs. *)
Theorem thickline_nan_tau exp x x0 dV Tex :
  (forall q, (q <= 0)%Q -> thickline exp x x0 dV Tex (Fin q) = Err (ValueError "Must have positive tau."))
  /\ thickline exp x x0 dV Tex NInf = Err (ValueError "Must have positive tau.")
  /\ (exp NaN = NaN -> thickline exp x x0 dV Tex NaN = Ok (repeat NaN (length x))).
Proof.
  split; [|split].
  - intros q Hq. unfold thickline. cbn [F64.leb]. replace (Qle_bool q 0) with true; [reflexivity|].
    symmetry. apply Qle_bool_iff, Hq.
  - reflexivity.
  - intros He. unfold thickline, gaussian. cbn [F64.leb]. rewrite map_map.
    rewrite (repeat_nan_map _ x); [reflexivity|]. intros v. cbn [F64.mul F64.neg]. rewrite He.
    destruct Tex; reflexivity.
Qed.

Lemma deprojected_width_finite_witness :
  match plain_ensemble with
  | Ok e => exists q, get_deprojected_width np_ext e (Fin 0) (Fin 0) = Ok (Fin q) /\ (0 <= q)%Q
  | Err _ => False
  end.
Proof.
  destruct plain_ensemble as [e|err] eqn:He; [|vm_compute in He; discriminate].
  vm_compute in He. injection He; intros He'.
  assert (Hv : velax e <> []) by (rewrite <- He'; discriminate).
  destruct (deprojected_spectrum np_ext e (Fin 0) (Fin 0)) as [xy|err] eqn:Hd;
    [|rewrite <- He' in Hd; vm_compute in Hd; discriminate].
  exact (deprojected_width_finite np_ext e (Fin 0) (Fin 0) xy Hd Hv).
Defined.

Lemma guess_parameters_unfitted_witness :
  match plain_ensemble with
  | Ok e => exists r l, guess_parameters np_ext (fun _ _ _ _ => None) e false true "max"
                        = Ok [Fin r; Fin l] /\ (0 <= r)%Q
  | Err _ => False
  end.
Proof.
  destruct plain_ensemble as [e|err] eqn:He; [|vm_compute in He; discriminate].
  vm_compute in He. injection He; intros He'.
  destruct (peak_velocities np_ext e "max") as [vp|err] eqn:Hp;
    [|rewrite <- He' in Hp; vm_compute in Hp; discriminate].
  assert (Hvp : vp = [Fin 1; Fin 1]) by (rewrite <- He' in Hp; vm_compute in Hp; injection Hp; auto).
  assert (Hne : vp <> []) by (rewrite Hvp; discriminate).
  assert (Hf : Forall (fun v => F64.isfinite v = true) vp) by (rewrite Hvp; repeat constructor).
  destruct (guess_parameters_unfitted np_ext (fun _ _ _ _ => None) e false true "max" vp Hp Hne Hf
              (or_introl eq_refl)) as (r & l & lo & hi & H1 & _ & _ & _ & _ & H2 & _).
  exists r, l. split; assumption.
Defined.

Lemma thickline_nan_tau_witness :
  thickline (fun v => v) [Fin 0; Fin 1] (Fin 0) (Fin 1) (Fin 1) NaN = Ok (repeat NaN 2).
Proof.
  destruct (thickline_nan_tau (fun v => v) [Fin 0; Fin 1] (Fin 0) (Fin 1) (Fin 1)) as (_ & _ & H).
  exact (H eq_refl).
Defined.
